(** * NintbotForDiscord: the command registry

    A shallow embedding of [NintbotForDiscord/CommandRegistry.py] and the
    properties of its command table and dispatcher.

    Layout:
    - [Py]: the Python values, exceptions and string/list primitives the
      registry calls ([str.lstrip], [list.remove], indexing);
    - [Re]: a model of the part of Python's [re] module the registry uses
      ([re.compile], [Pattern.match], [Pattern.findall]) on a fragment of the
      pattern syntax;
    - [CommandRegistry]: the class itself, method by method;
    - [Scenario]: a concrete deployment, and [Spec]: the notions the
      statements use;
    - the facts on the primitives, on the command table and on the
      dispatcher, and their instances on the concrete deployment. *)

From Stdlib Require Import List String Ascii Bool Arith PeanoNat Lia.
Import ListNotations.
Local Open Scope string_scope.
Local Open Scope list_scope.

Set Implicit Arguments.

(* ================================================================== *)
(** ** Python primitives *)

Module Py.

(** The exceptions that can reach the registry's code. [TimeoutError] is
    [asyncio.TimeoutError]; [ReError] is [re.error]; [HandlerError] stands
    for whatever else a plugin's coroutine raises. *)
Inductive exn : Type :=
| TimeoutError
| TypeError
| IndexError
| ValueError
| ReError
| HandlerError (code : nat).

(** The outcome of evaluating an expression or statement. *)
Inductive result (A : Type) : Type :=
| Ok (a : A)
| Raise (e : exn).
Arguments Ok {A} a.
Arguments Raise {A} e.

(** The few shapes of value that flow into an event's argument slot:
    [findall] yields strings, or tuples of strings when the pattern has
    several groups; [VNone] stands for what a caller passes. *)
Inductive value : Type :=
| VNone
| VStr (s : string)
| VTuple (items : list string).

Definition value_eq_dec (a b : value) : {a = b} + {a <> b}.
Proof. decide equality; try apply string_dec; apply (list_eq_dec string_dec). Defined.

(** [c in chars] on a string. *)
Fixpoint char_in (c : ascii) (chars : string) : bool :=
  match chars with
  | EmptyString => false
  | String d rest => Ascii.eqb c d || char_in c rest
  end.

(** [s.lstrip(chars)]: the argument is a set of characters, and every
    leading character of [s] that belongs to it is dropped. *)
Fixpoint lstrip (s chars : string) : string :=
  match s with
  | EmptyString => EmptyString
  | String c rest => if char_in c chars then lstrip rest chars else s
  end.

(** [s.startswith(p)]. *)
Fixpoint startswith (s p : string) : bool :=
  match p, s with
  | EmptyString, _ => true
  | String _ _, EmptyString => false
  | String a p', String b s' => Ascii.eqb a b && startswith s' p'
  end.

(** [s[len(p):] if s.startswith(p) else s]: one leading copy of [p]
    removed.  The registry never calls this; it is what the word
    "prefix" describes, kept for comparison with [lstrip]. *)
Definition removeprefix (s p : string) : string :=
  if startswith s p then substring (String.length p) (String.length s - String.length p) s
  else s.

(** [l[0]]. *)
Definition index0 {A : Type} (l : list A) : result A :=
  match l with
  | [] => Raise IndexError
  | x :: _ => Ok x
  end.

Section ListRemove.
Variable A : Type.
Variable eq_dec : forall a b : A, {a = b} + {a <> b}.

(** [l.remove(x)]: deletes the first element equal to [x]; a
    [ValueError] when there is none. *)
Fixpoint list_remove (x : A) (l : list A) : result (list A) :=
  match l with
  | [] => Raise ValueError
  | y :: rest =>
      if eq_dec y x then Ok rest
      else match list_remove x rest with
           | Ok rest' => Ok (y :: rest')
           | Raise e => Raise e
           end
  end.
End ListRemove.

End Py.

(* ================================================================== *)
(** ** Regular expressions *)

Module Re.

(** Abstract syntax of the modelled fragment: literals, [.], the anchors
    [^] and [$], concatenation, [|], the greedy quantifiers [*], [+], [?]
    and capturing groups, numbered by their opening parenthesis. *)
Inductive regex : Type :=
| Eps
| Chr (c : ascii)
| Dot
| Bol
| Eol
| Cat (r1 r2 : regex)
| Alt (r1 r2 : regex)
| Star (r : regex)
| Plus (r : regex)
| Opt (r : regex)
| Group (n : nat) (r : regex).

Definition regex_eq_dec (a b : regex) : {a = b} + {a <> b}.
Proof. decide equality; try apply Nat.eq_dec; apply ascii_dec. Defined.

(** A compiled pattern: the syntax tree and [Pattern.groups]. *)
Record pattern : Type := mkPattern { ast : regex; groups : nat }.

Definition pattern_eq_dec (a b : pattern) : {a = b} + {a <> b}.
Proof. decide equality; [apply Nat.eq_dec | apply regex_eq_dec]. Defined.

(** *** Matching: a backtracking matcher in continuation style *)

Record state : Type := mkState {
  pos : nat;                      (* offset in the subject *)
  rest : string;                  (* the subject from [pos] on *)
  caps : list (nat * string)      (* group texts, latest binding first *)
}.

Definition cont : Type := state -> option state.

Definition newline : ascii := ascii_of_nat 10.

Definition orelse (a : option state) (b : unit -> option state) : option state :=
  match a with
  | Some s => Some s
  | None => b tt
  end.

(** One more iteration of a greedy repeat, then the rest of the pattern;
    failing that, the rest of the pattern right away.  An iteration that
    consumed nothing ends the repeat. *)
Definition star_loop (body : state -> cont -> option state) (k : cont)
  : nat -> state -> option state :=
  fix loop (fuel : nat) (s : state) {struct fuel} : option state :=
    match fuel with
    | 0 => k s
    | S fuel' =>
        orelse
          (body s (fun s' =>
                     if Nat.ltb (String.length (rest s')) (String.length (rest s))
                     then loop fuel' s'
                     else k s'))
          (fun _ => k s)
    end.

Definition consumed (before after : state) : string :=
  substring 0 (String.length (rest before) - String.length (rest after)) (rest before).

Fixpoint run (r : regex) (s : state) (k : cont) {struct r} : option state :=
  match r with
  | Eps => k s
  | Chr c =>
      match rest s with
      | String x t => if Ascii.eqb x c then k (mkState (S (pos s)) t (caps s)) else None
      | EmptyString => None
      end
  | Dot =>
      match rest s with
      | String x t => if Ascii.eqb x newline then None else k (mkState (S (pos s)) t (caps s))
      | EmptyString => None
      end
  | Bol => if Nat.eqb (pos s) 0 then k s else None
  | Eol =>
      match rest s with
      | EmptyString => k s
      | String x EmptyString => if Ascii.eqb x newline then k s else None
      | String _ _ => None
      end
  | Cat r1 r2 => run r1 s (fun s1 => run r2 s1 k)
  | Alt r1 r2 => orelse (run r1 s k) (fun _ => run r2 s k)
  | Star r1 => star_loop (run r1) k (S (String.length (rest s))) s
  | Plus r1 =>
      run r1 s (fun s1 => star_loop (run r1) k (S (String.length (rest s1))) s1)
  | Opt r1 => orelse (run r1 s k) (fun _ => k s)
  | Group n r1 =>
      run r1 s (fun s1 => k (mkState (pos s1) (rest s1) ((n, consumed s s1) :: caps s1)))
  end.

(** A match object: [span()] and the group texts. *)
Record match_object : Type := mkMatch {
  m_start : nat;
  m_end : nat;
  m_caps : list (nat * string)
}.

(** A match attempt at one offset; [must_advance] refuses the empty match. *)
Definition match_here (p : pattern) (must_advance : bool) (start : nat) (suffix : string)
  : option match_object :=
  match run (ast p) (mkState start suffix [])
            (fun s => if must_advance && Nat.eqb (pos s) start then None else Some s) with
  | Some s => Some (mkMatch start (pos s) (caps s))
  | None => None
  end.

(** [Pattern.match(subject)]: a match starting at offset 0, ending anywhere. *)
Definition match_ (p : pattern) (subject : string) : option match_object :=
  match_here p false 0 subject.

(** [Pattern.fullmatch(subject)]: a match of the whole subject. *)
Definition fullmatch (p : pattern) (subject : string) : option match_object :=
  match run (ast p) (mkState 0 subject [])
            (fun s => match rest s with EmptyString => Some s | String _ _ => None end) with
  | Some s => Some (mkMatch 0 (pos s) (caps s))
  | None => None
  end.

(** The scan of [Pattern.search]: the first offset from [start] on at
    which the pattern matches.  [must_advance] applies to the first
    offset only. *)
Fixpoint search_from (p : pattern) (must_advance : bool) (start : nat) (suffix : string)
  : option match_object :=
  match match_here p must_advance start suffix with
  | Some m => Some m
  | None =>
      match suffix with
      | EmptyString => None
      | String _ t => search_from p false (S start) t
      end
  end.

Fixpoint lookup (n : nat) (c : list (nat * string)) : option string :=
  match c with
  | [] => None
  | (i, t) :: c' => if Nat.eqb i n then Some t else lookup n c'
  end.

(** [m.group(n)] for [n >= 1]; [None] when the group took no part. *)
Definition group (m : match_object) (n : nat) : option string := lookup n (m_caps m).

(** [m.group(0)]. *)
Definition group0 (subject : string) (m : match_object) : string :=
  substring (m_start m) (m_end m - m_start m) subject.

Definition group_text (m : match_object) (n : nat) : string :=
  match group m n with
  | Some t => t
  | None => EmptyString
  end.

(** What [findall] lists for one match: the matched text when the pattern
    has no group, the group's text when it has one, a tuple of all the
    groups' texts otherwise; a group that took no part gives [""]. *)
Definition find_item (p : pattern) (subject : string) (m : match_object) : Py.value :=
  match groups p with
  | 0 => Py.VStr (group0 subject m)
  | 1 => Py.VStr (group_text m 1)
  | n => Py.VTuple (map (group_text m) (seq 1 n))
  end.

Fixpoint drop (n : nat) (s : string) : string :=
  match n, s with
  | 0, _ => s
  | S _, EmptyString => EmptyString
  | S n', String _ t => drop n' t
  end.

(** [Pattern.findall(subject)]: the items of the successive matches,
    left to right, without overlap. *)
Fixpoint findall_from (p : pattern) (subject : string) (fuel : nat)
         (must_advance : bool) (start : nat) : list Py.value :=
  match fuel with
  | 0 => []
  | S fuel' =>
      match search_from p must_advance start (drop start subject) with
      | None => []
      | Some m =>
          find_item p subject m ::
          findall_from p subject fuel' (Nat.eqb (m_end m) (m_start m)) (m_end m)
      end
  end.

Definition findall (p : pattern) (subject : string) : list Py.value :=
  findall_from p subject (2 * String.length subject + 2) false 0.

(** *** Compiling: a one-pass parser of the fragment

    The parser keeps the stack of the groups that are open.  What lies
    outside the fragment (character classes, counted repeats, lazy
    quantifiers, [(?...)] extensions, escapes of letters and digits) is
    answered with [re.error] here although [re] accepts some of it; the
    theorems on the registry take the compiler as a parameter and do not
    depend on that answer. *)

Record frame : Type := mkFrame {
  f_group : nat;                  (* number of the group being read *)
  f_alts : list regex;            (* finished branches, latest first *)
  f_items : list (regex * bool)   (* items of the current branch, latest
                                     first; the flag: may be repeated *)
}.

Definition branch (items : list (regex * bool)) : regex :=
  match items with
  | [] => Eps
  | it :: more => fold_left (fun acc i => Cat (fst i) acc) more (fst it)
  end.

Definition close (f : frame) : regex :=
  fold_left (fun acc a => Alt a acc) (f_alts f) (branch (f_items f)).

Record parser : Type := mkParser {
  p_open : list frame;            (* enclosing groups, innermost first *)
  p_cur : frame;
  p_next : nat;                   (* number of the next group *)
  p_escaped : bool                (* the previous character was a backslash *)
}.

Definition push_item (it : regex * bool) (ps : parser) : parser :=
  let f := p_cur ps in
  mkParser (p_open ps) (mkFrame (f_group f) (f_alts f) (it :: f_items f)) (p_next ps) false.

Definition quantify (q : regex -> regex) (ps : parser) : Py.result parser :=
  let f := p_cur ps in
  match f_items f with
  | (r, true) :: more =>
      Py.Ok (mkParser (p_open ps) (mkFrame (f_group f) (f_alts f) ((q r, false) :: more))
                      (p_next ps) false)
  | _ => Py.Raise Py.ReError
  end.

Definition is_alnum (c : ascii) : bool :=
  let n := nat_of_ascii c in
  ((48 <=? n) && (n <=? 57) || (65 <=? n) && (n <=? 90) || (97 <=? n) && (n <=? 122))%nat.

Definition step (ps : parser) (c : ascii) : Py.result parser :=
  if p_escaped ps then
    if is_alnum c then Py.Raise Py.ReError else Py.Ok (push_item (Chr c, true) ps)
  else if Ascii.eqb c "\" then
    Py.Ok (mkParser (p_open ps) (p_cur ps) (p_next ps) true)
  else if Ascii.eqb c "(" then
    Py.Ok (mkParser (p_cur ps :: p_open ps) (mkFrame (p_next ps) [] []) (S (p_next ps)) false)
  else if Ascii.eqb c ")" then
    match p_open ps with
    | [] => Py.Raise Py.ReError
    | parent :: outer =>
        let g := Group (f_group (p_cur ps)) (close (p_cur ps)) in
        Py.Ok (mkParser outer
                        (mkFrame (f_group parent) (f_alts parent) ((g, true) :: f_items parent))
                        (p_next ps) false)
    end
  else if Ascii.eqb c "|" then
    let f := p_cur ps in
    Py.Ok (mkParser (p_open ps) (mkFrame (f_group f) (branch (f_items f) :: f_alts f) [])
                    (p_next ps) false)
  else if Ascii.eqb c "*" then quantify Star ps
  else if Ascii.eqb c "+" then quantify Plus ps
  else if Ascii.eqb c "?" then quantify Opt ps
  else if Ascii.eqb c "." then Py.Ok (push_item (Dot, true) ps)
  else if Ascii.eqb c "^" then Py.Ok (push_item (Bol, false) ps)
  else if Ascii.eqb c "$" then Py.Ok (push_item (Eol, false) ps)
  else if Ascii.eqb c "[" || Ascii.eqb c "{" then Py.Raise Py.ReError
  else Py.Ok (push_item (Chr c, true) ps).

Fixpoint steps (ps : parser) (source : string) : Py.result parser :=
  match source with
  | EmptyString => Py.Ok ps
  | String c t =>
      match step ps c with
      | Py.Ok ps' => steps ps' t
      | Py.Raise e => Py.Raise e
      end
  end.

(** [re.compile(source)]. *)
Definition compile (source : string) : Py.result pattern :=
  match steps (mkParser [] (mkFrame 0 [] []) 1 false) source with
  | Py.Raise e => Py.Raise e
  | Py.Ok ps =>
      if p_escaped ps then Py.Raise Py.ReError
      else match p_open ps with
           | [] => Py.Ok (mkPattern (close (p_cur ps)) (p_next ps - 1))
           | _ :: _ => Py.Raise Py.ReError
           end
  end.

End Re.

(* ================================================================== *)
(** ** The registry *)

Module CommandRegistry.
Import Py.

(** *** Collaborators

    Users, channels, permissions and handlers are objects of other
    modules.  The registry compares them, stores them and calls into
    them, nothing more, so each is represented by its identity. *)

Definition User : Type := nat.          (* discord.User *)
Definition Channel : Type := nat.
Definition Permission : Type := nat.    (* a [Permission] object *)
Definition Handler : Type := nat.       (* a coroutine function *)

(** A [BasePlugin] instance; [manifest_name] is [plugin.manifest["name"]]. *)
Record Plugin : Type := mkPlugin { plugin_id : nat; manifest_name : string }.

Record Message : Type := mkMessage { message_id : nat; message_content : string }.

(** Modelled from the spec: the class [CommandSentEvent] of [Events.py],
    which is not among the sources.  The fields are those of the spec's
    InvocationContext, in the order in which the call at lines 113-115
    passes them to the constructor.  The dispatcher reads the attributes
    [message], [author], [channel] and [content]; [content] is taken to be
    the text of the message the event carries. *)
Record CommandSentEvent : Type := mkEvent {
  message : Message;
  author : User;
  channel : Channel;
  event_command : string;
  event_args : value
}.

Definition content (ev : CommandSentEvent) : string := message_content (message ev).

(** *** Entries: the dictionaries of [_commands] and [_modern_commands] *)

Record Command : Type := mkCommand {
  command : string;
  description : string;
  required_permission : Permission;
  plugin : Plugin;
  handler : option Handler
}.

Record ModernCommand : Type := mkModernCommand {
  modern_command : Re.pattern;            (* key "command" *)
  command_string : string;
  modern_description : string;            (* key "description" *)
  modern_required_permission : Permission;
  modern_plugin : Plugin;
  modern_handler : option Handler
}.

Definition Plugin_eq_dec (a b : Plugin) : {a = b} + {a <> b}.
Proof. decide equality; [apply string_dec | apply Nat.eq_dec]. Defined.

Definition option_Handler_eq_dec (a b : option Handler) : {a = b} + {a <> b}.
Proof. decide equality. apply Nat.eq_dec. Defined.

(** [==] on two entries: equality of dictionaries, key by key. *)
Definition Command_eq_dec (a b : Command) : {a = b} + {a <> b}.
Proof.
  decide equality;
    first [apply option_Handler_eq_dec | apply Plugin_eq_dec | apply Nat.eq_dec | apply string_dec].
Defined.

Definition ModernCommand_eq_dec (a b : ModernCommand) : {a = b} + {a <> b}.
Proof.
  decide equality;
    first [apply option_Handler_eq_dec | apply Plugin_eq_dec | apply Nat.eq_dec
          | apply string_dec | apply Re.pattern_eq_dec].
Defined.

(** [command["plugin"] == plugin]. *)
Definition plugin_eqb (a b : Plugin) : bool :=
  if Plugin_eq_dec a b then true else false.

Definition is_not_None {A : Type} (o : option A) : bool :=
  match o with
  | Some _ => true
  | None => false
  end.

(** *** The object's state *)

Record Registry : Type := mkRegistry {
  _commands : list Command;
  _modern_commands : list ModernCommand
}.

(** [__init__]. *)
Definition init : Registry := mkRegistry [] [].

(** *** Statements that update the registry

    A method that mutates [self] maps the registry to the registry it
    leaves behind and the method's outcome. *)

Definition M (A : Type) : Type := Registry -> Registry * result A.

Definition ret {A : Type} (a : A) : M A := fun reg => (reg, Ok a).

Definition bind {A B : Type} (m : M A) (f : A -> M B) : M B :=
  fun reg =>
    match m reg with
    | (reg', Ok a) => f a reg'
    | (reg', Raise e) => (reg', Raise e)
    end.

(** [for x in snapshot: body(x)]. *)
Fixpoint for_each {A : Type} (snapshot : list A) (body : A -> M unit) : M unit :=
  match snapshot with
  | [] => ret tt
  | x :: rest => bind (body x) (fun _ => for_each rest body)
  end.

(** [self._commands.append(entry)]. *)
Definition append_command (entry : Command) : M unit :=
  fun reg => (mkRegistry (_commands reg ++ [entry]) (_modern_commands reg), Ok tt).

(** [self._modern_commands.append(entry)]. *)
Definition append_modern_command (entry : ModernCommand) : M unit :=
  fun reg => (mkRegistry (_commands reg) (_modern_commands reg ++ [entry]), Ok tt).

(** [self._commands.remove(entry)]. *)
Definition remove_command (entry : Command) : M unit :=
  fun reg =>
    match list_remove Command_eq_dec entry (_commands reg) with
    | Ok l => (mkRegistry l (_modern_commands reg), Ok tt)
    | Raise e => (reg, Raise e)
    end.

(** [self._modern_commands.remove(entry)]. *)
Definition remove_modern_command (entry : ModernCommand) : M unit :=
  fun reg =>
    match list_remove ModernCommand_eq_dec entry (_modern_commands reg) with
    | Ok l => (mkRegistry (_commands reg) l, Ok tt)
    | Raise e => (reg, Raise e)
    end.

(** *** Registration (lines 25-52); the debug log lines are left out *)

Definition register_command (command : string) (description : string)
           (required_perm : Permission) (plugin : Plugin)
           (command_handler : option Handler) : M unit :=
  append_command (mkCommand command description required_perm plugin command_handler).

(** The call that leaves [command_handler] to its default, [None]. *)
Definition register_command_without_handler (command : string) (description : string)
           (required_perm : Permission) (plugin : Plugin) : M unit :=
  register_command command description required_perm plugin None.

Section Compiler.
(** [re.compile]. *)
Variable re_compile : string -> result Re.pattern.

(** The dictionary is built, and with it the pattern compiled, before
    [append] is called. *)
Definition register_modern_command (command : string) (description : string)
           (required_perm : Permission) (plugin : Plugin)
           (command_handler : option Handler) : M unit :=
  fun reg =>
    match re_compile command with
    | Raise e => (reg, Raise e)
    | Ok compiled =>
        append_modern_command
          (mkModernCommand compiled command description required_perm plugin command_handler)
          reg
    end.
End Compiler.

(** *** Removal (lines 54-74): a loop over a copy of the list *)

Definition unregister_command (command_name : string) (plugin_ : Plugin) : M unit :=
  fun reg =>
    for_each (_commands reg)
      (fun c =>
         if String.eqb (command c) command_name && plugin_eqb (plugin c) plugin_
         then remove_command c
         else ret tt)
      reg.

Definition unregister_all_commands_for_plugin (plugin_ : Plugin) : M unit :=
  bind
    (fun reg =>
       for_each (_commands reg)
         (fun c => if plugin_eqb (plugin c) plugin_ then remove_command c else ret tt)
         reg)
    (fun _ reg =>
       for_each (_modern_commands reg)
         (fun c => if plugin_eqb (modern_plugin c) plugin_
                   then remove_modern_command c
                   else ret tt)
         reg).

(** *** Dispatch (lines 92-120) *)

(** The two settings read from [self.bot.config]. *)
Record Config : Type := mkConfig { event_timeout : nat; command_prefix : string }.

(** The dictionary a timeout warning is formatted with. *)
Inductive entry : Type :=
| Exact (c : Command)
| Pattern (c : ModernCommand).

(** What a dispatch does to the outside, in order: [Invoke h ev t] is
    [await asyncio.wait_for(h(ev), timeout=t)] being started, [Warning e n]
    the call [self.bot.logger.warning("Handling of {} command from plugin {}
    timed out.".format(e, n))]. *)
Inductive effect : Type :=
| Invoke (h : Handler) (ev : CommandSentEvent) (timeout : nat)
| Warning (e : entry) (plugin_name : string).

(** A statement of the dispatcher: the effects it had, and its outcome. *)
Definition D (A : Type) : Type := (list effect * result A)%type.

Definition dret {A : Type} (a : A) : D A := ([], Ok a).

Definition dbind {A B : Type} (m : D A) (f : A -> D B) : D B :=
  match m with
  | (t, Ok a) => let (t', r) := f a in (t ++ t', r)
  | (t, Raise e) => (t, Raise e)
  end.

Definition lift {A : Type} (r : result A) : D A := ([], r).

Definition tell (e : effect) : D unit := ([e], Ok tt).

(** [try: body  except asyncio.TimeoutError: recover]. *)
Definition try_except_timeout (body recover : D unit) : D unit :=
  match body with
  | (t, Raise TimeoutError) => let (t', r) := recover in (t ++ t', r)
  | other => other
  end.

(** [for x in l: body(x)]; the handlers are taken not to touch the list. *)
Fixpoint dfor_each {A : Type} (l : list A) (body : A -> D unit) : D unit :=
  match l with
  | [] => dret tt
  | x :: rest => dbind (body x) (fun _ => dfor_each rest body)
  end.

Section Dispatch.
Variable config : Config.

(** [permission.has_permission(user)], the permission oracle. *)
Variable has_permission : Permission -> User -> bool.

(** [await asyncio.wait_for(h(ev), timeout=t, loop=...)]: returns when
    the coroutine does, raises [TimeoutError] when the time is up, and
    passes on what the coroutine raises. *)
Variable wait_for : Handler -> CommandSentEvent -> nat -> result unit.

(** [args["author"]]: the subscript of a [CommandSentEvent], defined in
    [Events.py]. *)
Variable subscript_author : CommandSentEvent -> result User.

(** [get_available_commands_for_user] (line 82). *)
Definition get_available_commands_for_user (user : User) (reg : Registry) : list Command :=
  filter (fun i => has_permission (required_permission i) user) (_commands reg).

(** [await asyncio.wait_for(h(ev), ...)] for the stored handler [h]. *)
Definition invoke (h : option Handler) (ev : CommandSentEvent) : D unit :=
  match h with
  | None => lift (Raise TypeError)
  | Some f =>
      dbind (tell (Invoke f ev (event_timeout config)))
            (fun _ => lift (wait_for f ev (event_timeout config)))
  end.

(** The body of the first loop (lines 100-108). *)
Definition handle_exact (command_name : string) (args : CommandSentEvent) (c : Command)
  : D unit :=
  if String.eqb (command c) command_name && is_not_None (handler c) then
    if has_permission (required_permission c) (author args) then
      try_except_timeout
        (invoke (handler c) args)
        (tell (Warning (Exact c) (manifest_name (plugin c))))
    else dret tt
  else dret tt.

(** [args.content.lstrip(self.bot.config["command_prefix"])]. *)
Definition command_body (args : CommandSentEvent) : string :=
  lstrip (content args) (command_prefix config).

(** The body of the second loop (lines 110-120). *)
Definition handle_modern (args : CommandSentEvent) (c : ModernCommand) : D unit :=
  if is_not_None (Re.match_ (modern_command c) (command_body args))
     && is_not_None (modern_handler c)
  then
    dbind (lift (subscript_author args)) (fun user =>
      if has_permission (modern_required_permission c) user then
        try_except_timeout
          (dbind (lift (index0 (Re.findall (modern_command c) (command_body args))))
                 (fun first =>
                    invoke (modern_handler c)
                           (mkEvent (message args) (author args) (channel args)
                                    (command_string c) first)))
          (tell (Warning (Pattern c) (manifest_name (modern_plugin c))))
      else dret tt)
  else dret tt.

Definition handle_command (command_name : string) (args : CommandSentEvent)
           (reg : Registry) : D unit :=
  dbind (dfor_each (_commands reg) (handle_exact command_name args))
        (fun _ => dfor_each (_modern_commands reg) (handle_modern args)).

End Dispatch.

(** [get_info_for_command] (line 90). *)
Definition get_info_for_command (command_ : string) (reg : Registry) : list Command :=
  filter (fun i => String.eqb (command i) command_) (_commands reg).

End CommandRegistry.

(* ================================================================== *)
(** ** A concrete deployment, for the examples *)

Module Scenario.
Import Py CommandRegistry.

(** Handlers wait at most 5 time units; commands start with an exclamation
    mark. *)
Definition config : Config := mkConfig 5 "!".

Definition alice : User := 1.
Definition mallory : User := 2.

(** Permission 0 is granted to everybody, any other one to [alice] only. *)
Definition everyone : Permission := 0.
Definition admins : Permission := 1.

Definition has_permission (p : Permission) (u : User) : bool :=
  match p with
  | 0 => true
  | S _ => Nat.eqb u alice
  end.

Definition core : Plugin := mkPlugin 1 "core".
Definition games : Plugin := mkPlugin 2 "games".

(** Handler 11 never finishes, handler 12 raises, the others return at
    once. *)
Definition quick : Handler := 10.
Definition stuck : Handler := 11.
Definition faulty : Handler := 12.
Definition other : Handler := 13.

Definition wait_for (h : Handler) (ev : CommandSentEvent) (timeout : nat) : result unit :=
  if Nat.eqb h stuck then Raise TimeoutError
  else if Nat.eqb h faulty then Raise (HandlerError 7)
  else Ok tt.

(** Events whose subscript reads the attribute of the same name. *)
Definition subscript_author (ev : CommandSentEvent) : result User := Ok (author ev).

(** The event for [text] typed by [user], with [word] as the command token. *)
Definition said (user : User) (word text : string) : CommandSentEvent :=
  mkEvent (mkMessage 100 text) user 7 word VNone.

(** A registry after the given registrations, the compiler being [Re.compile]. *)
Definition after (script : list (M unit)) : Registry := fst (for_each script (fun m => m) init).

Definition dispatch (word : string) (ev : CommandSentEvent) (reg : Registry) : D unit :=
  handle_command config has_permission wait_for subscript_author word ev reg.

(** One pattern command without a group, one with a group. *)
Definition ping_only : Registry :=
  after [register_modern_command Re.compile "ping" "answers" everyone core (Some quick)].

Definition echo_only : Registry :=
  after [register_modern_command Re.compile "echo (.+)" "repeats" everyone core (Some quick)].

(** The entries these registrations store. *)
Definition compiled (source : string) : Re.pattern :=
  match Re.compile source with
  | Ok p => p
  | Raise _ => Re.mkPattern Re.Eps 0
  end.

Definition ping_entry : ModernCommand :=
  mkModernCommand (compiled "ping") "ping" "answers" everyone core (Some quick).

Definition echo_entry : ModernCommand :=
  mkModernCommand (compiled "echo (.+)") "echo (.+)" "repeats" everyone core (Some quick).

(** Two plugins whose registrations interleave: three exact commands named
    [hello] (the first one hangs, the second one is for admins and would
    raise), one without a handler, and two pattern commands. *)
Definition crowded : Registry :=
  after [register_command "hello" "greets" everyone core (Some stuck);
         register_command "hello" "greets admins" admins games (Some faulty);
         register_command "hello" "greets again" everyone games (Some quick);
         register_command_without_handler "help" "lists the commands" everyone core;
         register_modern_command Re.compile "hel+o" "greets loosely" everyone games (Some stuck);
         register_modern_command Re.compile "bye" "parts" everyone core (Some faulty)].


End Scenario.

(* ================================================================== *)
(** ** Notions used in the statements *)

Module Spec.
Import Py CommandRegistry.

(** The continuation [k'] succeeds wherever [k] does. *)
Definition weaker (k k' : Re.cont) : Prop :=
  forall s x, k s = Some x -> exists y, k' s = Some y.

(** [s'] lies [pre] further in the subject than [s]. *)
Definition advance (s s' : Re.state) : Prop :=
  exists pre, Re.rest s = String.append pre (Re.rest s') /\ Re.pos s' = Re.pos s + String.length pre.

(** The entries that do not belong to [owner]. *)
Definition kept_command (owner : Plugin) (c : Command) : bool :=
  negb (plugin_eqb (plugin c) owner).

Definition kept_modern_command (owner : Plugin) (c : ModernCommand) : bool :=
  negb (plugin_eqb (modern_plugin c) owner).

Definition without_plugin (owner : Plugin) (reg : Registry) : Registry :=
  mkRegistry (filter (kept_command owner) (_commands reg))
             (filter (kept_modern_command owner) (_modern_commands reg)).

(** A handler that returned, or was cut off by the timeout. *)
Definition benign (r : result unit) : Prop := r = Ok tt \/ r = Raise TimeoutError.

(** What is left of an awaited handler's outcome after the [except] clause. *)
Definition absorbed (r : result unit) : result unit :=
  match r with
  | Raise TimeoutError => Ok tt
  | other => other
  end.

Section Dispatch.
Variable config : Config.
Variable has_permission : Permission -> User -> bool.
Variable wait_for : Handler -> CommandSentEvent -> nat -> result unit.

(** The effects of awaiting handler [h] on [ev] for entry [e] of plugin
    [name]: the invocation, and a warning when it timed out. *)
Definition awaited (h : Handler) (ev : CommandSentEvent) (e : entry) (name : string)
  : list effect :=
  Invoke h ev (event_timeout config) ::
  match wait_for h ev (event_timeout config) with
  | Raise TimeoutError => [Warning e name]
  | _ => []
  end.

(** An exact entry is run for [command_name] typed by the author of [args]. *)
Definition exact_applies (command_name : string) (args : CommandSentEvent) (c : Command) : bool :=
  String.eqb (command c) command_name
  && is_not_None (handler c)
  && has_permission (required_permission c) (author args).

Definition exact_effects (args : CommandSentEvent) (c : Command) : list effect :=
  match handler c with
  | None => []
  | Some h => awaited h args (Exact c) (manifest_name (plugin c))
  end.

Definition exact_outcome (args : CommandSentEvent) (c : Command) : result unit :=
  match handler c with
  | None => Ok tt
  | Some h => absorbed (wait_for h args (event_timeout config))
  end.

(** A pattern entry is selected by the text of [args]. *)
Definition modern_selected (args : CommandSentEvent) (c : ModernCommand) : bool :=
  is_not_None (Re.match_ (modern_command c) (command_body config args))
  && is_not_None (modern_handler c).

(** A pattern entry is run for [args], [user] being the one checked. *)
Definition modern_applies (args : CommandSentEvent) (user : User) (c : ModernCommand) : bool :=
  modern_selected args c && has_permission (modern_required_permission c) user.

(** The argument slot of the event a pattern entry's handler receives. *)
Definition captured (args : CommandSentEvent) (c : ModernCommand) : value :=
  match Re.match_ (modern_command c) (command_body config args) with
  | Some m => Re.find_item (modern_command c) (command_body config args) m
  | None => VNone
  end.

(** The event a pattern entry's handler receives. *)
Definition modern_event (args : CommandSentEvent) (c : ModernCommand) : CommandSentEvent :=
  mkEvent (message args) (author args) (channel args) (command_string c) (captured args c).

Definition modern_effects (args : CommandSentEvent) (c : ModernCommand) : list effect :=
  match modern_handler c with
  | None => []
  | Some h => awaited h (modern_event args c) (Pattern c) (manifest_name (modern_plugin c))
  end.

Definition modern_outcome (args : CommandSentEvent) (c : ModernCommand) : result unit :=
  match modern_handler c with
  | None => Ok tt
  | Some h => absorbed (wait_for h (modern_event args c) (event_timeout config))
  end.

(** No handler of an exact entry that is run raises on [args]. *)
Definition exact_handlers_benign (command_name : string) (args : CommandSentEvent)
           (l : list Command) : Prop :=
  Forall (fun c => exact_applies command_name args c = true ->
                   forall h, handler c = Some h ->
                             benign (wait_for h args (event_timeout config))) l.

(** No handler of a pattern entry that is run raises on the event built
    for it. *)
Definition modern_handlers_benign (args : CommandSentEvent) (user : User)
           (l : list ModernCommand) : Prop :=
  Forall (fun c => modern_applies args user c = true ->
                   forall h, modern_handler c = Some h ->
                             benign (wait_for h (modern_event args c) (event_timeout config))) l.

End Dispatch.

(** The invocations among the effects. *)
Definition is_invoke (e : effect) : bool :=
  match e with
  | Invoke _ _ _ => true
  | Warning _ _ => false
  end.

Definition is_warning (e : effect) : bool := negb (is_invoke e).

(** An invocation that ran into the timeout. *)
Definition timed_out (wait_for : Handler -> CommandSentEvent -> nat -> result unit)
           (e : effect) : bool :=
  match e with
  | Invoke h ev t =>
      match wait_for h ev t with
      | Raise TimeoutError => true
      | _ => false
      end
  | Warning _ _ => false
  end.

(** As many warnings as invocations that timed out. *)
Definition balanced (wait_for : Handler -> CommandSentEvent -> nat -> result unit)
           (trace : list effect) : Prop :=
  List.length (filter is_warning trace) = List.length (filter (timed_out wait_for) trace).


(** The registry without the exact entries that have no handler. *)
Definition with_handler (reg : Registry) : Registry :=
  mkRegistry (filter (fun c => is_not_None (handler c)) (_commands reg)) (_modern_commands reg).

End Spec.

(* ================================================================== *)
(** ** Notions for the table and the trace as a whole *)

Module Notions.
Import Py CommandRegistry Spec.

(** An exact entry registered under [name] by [owner]. *)
Definition named_by (name : string) (owner : Plugin) (c : Command) : bool :=
  String.eqb (command c) name && plugin_eqb (plugin c) owner.

(** The registry without the exact entries of that name and plugin. *)
Definition without_command (name : string) (owner : Plugin) (reg : Registry) : Registry :=
  mkRegistry (filter (fun c => negb (named_by name owner c)) (_commands reg))
             (_modern_commands reg).

(** Every character of [s] belongs to [chars]. *)
Fixpoint all_in (s chars : string) : bool :=
  match s with
  | EmptyString => true
  | String c t => char_in c chars && all_in t chars
  end.

(** The text does not start with a character of [chars]. *)
Definition starts_outside (s chars : string) : bool :=
  match s with
  | EmptyString => true
  | String c _ => negb (char_in c chars)
  end.

Section Dispatch.
Variable config : Config.
Variable has_permission : Permission -> User -> bool.
Variable wait_for : Handler -> CommandSentEvent -> nat -> result unit.
Variable subscript_author : CommandSentEvent -> result User.

(** An exact entry stands behind the invocation of [h] on [ev]: it is
    listed under the command token, listed for the author, and [h] is its
    handler; the event is the dispatched one. *)
Definition backed_by_exact (command_name : string) (args : CommandSentEvent) (reg : Registry)
           (h : Handler) (ev : CommandSentEvent) : Prop :=
  ev = args
  /\ exists c, In c (get_info_for_command command_name reg)
               /\ In c (get_available_commands_for_user has_permission (author args) reg)
               /\ handler c = Some h.

(** A pattern entry stands behind the invocation of [h] on [ev]: its
    pattern matches the stripped text, the subscripted user holds its
    permission, [h] is its handler, and the event is the one built for it. *)
Definition backed_by_pattern (args : CommandSentEvent) (reg : Registry)
           (h : Handler) (ev : CommandSentEvent) : Prop :=
  exists c user,
    In c (_modern_commands reg)
    /\ is_not_None (Re.match_ (modern_command c) (command_body config args)) = true
    /\ subscript_author args = Ok user
    /\ has_permission (modern_required_permission c) user = true
    /\ modern_handler c = Some h
    /\ ev = modern_event config args c.

(** An effect of a dispatch that the registry accounts for. *)
Definition justified (command_name : string) (args : CommandSentEvent) (reg : Registry)
           (e : effect) : Prop :=
  match e with
  | Invoke h ev t =>
      t = event_timeout config
      /\ (backed_by_exact command_name args reg h ev \/ backed_by_pattern args reg h ev)
  | Warning (Exact c) name =>
      In c (_commands reg) /\ name = manifest_name (plugin c)
  | Warning (Pattern c) name =>
      In c (_modern_commands reg) /\ name = manifest_name (modern_plugin c)
  end.

End Dispatch.

(** An effect that involves no entry of [owner]. *)
Definition foreign_to (owner : Plugin) (reg : Registry) (e : effect) : Prop :=
  match e with
  | Invoke h _ _ =>
      (exists c, In c (_commands reg) /\ plugin c <> owner /\ handler c = Some h)
      \/ (exists c, In c (_modern_commands reg) /\ modern_plugin c <> owner
                    /\ modern_handler c = Some h)
  | Warning (Exact c) _ => plugin c <> owner
  | Warning (Pattern c) _ => modern_plugin c <> owner
  end.

(** Events of a class without a subscript: [args["author"]] is a
    [TypeError]. *)
Definition unsubscriptable (ev : CommandSentEvent) : result User := Raise TypeError.

End Notions.

(* ================================================================== *)
(** ** Facts about the primitives *)

Unset Implicit Arguments.

Module PyFacts.
Import Py.

Section ListRemove.
Variable A : Type.
Variable eq_dec : forall a b : A, {a = b} + {a <> b}.

(** Removing [x] from a list whose first occurrence of [x] comes after
    [kept] deletes exactly that occurrence. *)
Lemma list_remove_first (x : A) (kept rest : list A) :
  Forall (fun y => y <> x) kept ->
  list_remove eq_dec x (kept ++ x :: rest) = Ok (kept ++ rest).
Proof.
  induction 1 as [|y kept Hy _ IH]; simpl.
  - destruct (eq_dec x x) as [_|N]; [reflexivity | contradiction].
  - destruct (eq_dec y x) as [E|_]; [contradiction | now rewrite IH].
Qed.

(** [remove] fails only when the element is absent. *)
Lemma list_remove_absent (x : A) (l : list A) :
  ~ In x l -> list_remove eq_dec x l = Raise ValueError.
Proof.
  induction l as [|y l IH]; simpl; intros N; [reflexivity|].
  destruct (eq_dec y x) as [E|_]; [tauto|].
  rewrite IH; tauto.
Qed.
End ListRemove.

Lemma lstrip_empty_chars (s : string) : lstrip s "" = s.
Proof. destruct s; reflexivity. Qed.

(** [lstrip] leaves alone a text whose first character is not in the set. *)
Lemma lstrip_stops (c : ascii) (s chars : string) :
  char_in c chars = false -> lstrip (String c s) chars = String c s.
Proof. intros H; simpl; now rewrite H. Qed.

(** After [lstrip], no character of the set is left in front. *)
Lemma lstrip_head (s chars : string) (c : ascii) (t : string) :
  lstrip s chars = String c t -> char_in c chars = false.
Proof.
  induction s as [|d s IH]; simpl; [discriminate|].
  destruct (char_in d chars) eqn:E; [exact IH|].
  intros H; injection H as -> _; exact E.
Qed.

End PyFacts.

Module ReFacts.
Import Re Spec.

Lemma orelse_some (a : option state) (b : unit -> option state) (x : state) :
  orelse a b = Some x -> a = Some x \/ (a = None /\ b tt = Some x).
Proof. destruct a; simpl; intros H; [left | right]; auto. Qed.

Lemma orelse_defined (a : option state) (b : unit -> option state) :
  (exists y, a = Some y) \/ (exists y, b tt = Some y) -> exists y, orelse a b = Some y.
Proof.
  intros [[y ->]|[y H]]; simpl; [now exists y|].
  destruct a; simpl; eauto.
Qed.

Section StarLoop.
Variable body : state -> cont -> option state.
Hypothesis body_mono :
  forall s k k', weaker k k' -> forall x, body s k = Some x -> exists y, body s k' = Some y.

Lemma star_loop_mono (k k' : cont) :
  weaker k k' ->
  forall fuel s x, star_loop body k fuel s = Some x -> exists y, star_loop body k' fuel s = Some y.
Proof.
  intros Hk; induction fuel as [|fuel IH]; simpl; intros s x H.
  - exact (Hk _ _ H).
  - apply orelse_defined.
    apply orelse_some in H as [H|[_ H]].
    + left. eapply body_mono; [|exact H].
      intros s' z; destruct (Nat.ltb _ _); [apply IH | apply Hk].
    + right. exact (Hk _ _ H).
Qed.
End StarLoop.

(** A pattern that matches with a demanding continuation matches with a
    lenient one. *)
Lemma run_mono (r : regex) :
  forall s k k', weaker k k' -> forall x, run r s k = Some x -> exists y, run r s k' = Some y.
Proof.
  induction r as [| c | | | | r1 IH1 r2 IH2 | r1 IH1 r2 IH2 | r IH | r IH | r IH | n r IH];
    intros s k k' Hk x H.
  - exact (Hk _ _ H).
  - simpl in *. destruct (rest s) as [|a t]; [discriminate|].
    destruct (Ascii.eqb a c); [exact (Hk _ _ H) | discriminate].
  - simpl in *. destruct (rest s) as [|a t]; [discriminate|].
    destruct (Ascii.eqb a newline); [discriminate | exact (Hk _ _ H)].
  - simpl in *. destruct (Nat.eqb (pos s) 0); [exact (Hk _ _ H) | discriminate].
  - simpl in *. destruct (rest s) as [|a [|b t]]; try discriminate; [exact (Hk _ _ H)|].
    destruct (Ascii.eqb a newline); [exact (Hk _ _ H) | discriminate].
  - simpl in *. eapply IH1; [|exact H]. intros s1 z; apply IH2, Hk.
  - simpl in *. apply orelse_defined. apply orelse_some in H as [H|[_ H]].
    + left; eapply IH1; eauto.
    + right; eapply IH2; eauto.
  - exact (star_loop_mono (run r) IH k k' Hk _ _ _ H).
  - change (run r s (fun s1 => star_loop (run r) k (S (String.length (rest s1))) s1) = Some x) in H.
    change (exists y, run r s (fun s1 => star_loop (run r) k' (S (String.length (rest s1))) s1) = Some y).
    eapply IH; [|exact H]. intros s1 z. apply (star_loop_mono (run r) IH k k' Hk).
  - simpl in *. apply orelse_defined. apply orelse_some in H as [H|[_ H]].
    + left; eapply IH; eauto.
    + right; exact (Hk _ _ H).
  - simpl in *. eapply IH; [|exact H]. intros s1 z; apply Hk.
Qed.

(** Whatever [fullmatch] accepts, [match] accepts. *)
Lemma fullmatch_match (p : pattern) (subject : string) (m : match_object) :
  fullmatch p subject = Some m -> exists m', match_ p subject = Some m'.
Proof.
  unfold fullmatch, match_, match_here; intros H.
  destruct (run (ast p) _ _) as [x|] eqn:E; [|discriminate].
  assert (W : weaker
                (fun s => match rest s with EmptyString => Some s | String _ _ => None end)
                (fun s => if false && Nat.eqb (pos s) 0 then None else Some s))
    by (intros s z _; simpl; eauto).
  destruct (run_mono (ast p) (mkState 0 subject []) _ _ W _ E) as [y Hy].
  rewrite Hy; eauto.
Qed.

Lemma append_assoc (a b c : string) :
  String.append (String.append a b) c = String.append a (String.append b c).
Proof. induction a as [|x a IH]; simpl; [reflexivity | now rewrite IH]. Qed.

Lemma length_append (a b : string) :
  String.length (String.append a b) = String.length a + String.length b.
Proof. induction a as [|x a IH]; simpl; [reflexivity | now rewrite IH]. Qed.

Lemma advance_refl (s : state) : advance s s.
Proof. exists EmptyString; simpl; split; [reflexivity | lia]. Qed.

Lemma advance_trans (s1 s2 s3 : state) : advance s1 s2 -> advance s2 s3 -> advance s1 s3.
Proof.
  intros [p1 [H1 P1]] [p2 [H2 P2]]. exists (String.append p1 p2).
  rewrite H1, H2, append_assoc, length_append. split; [reflexivity | lia].
Qed.

Lemma advance_char (s : state) (a : ascii) (t : string) (c : list (nat * string)) :
  rest s = String a t -> advance s (mkState (S (pos s)) t c).
Proof. intros H. exists (String a EmptyString). simpl. split; [exact H | lia]. Qed.

Lemma advance_caps (s s1 : state) (c : list (nat * string)) :
  advance s s1 -> advance s (mkState (pos s1) (rest s1) c).
Proof. intros [p H]. exists p. exact H. Qed.

Section StarLoopAdvance.
Variable body : state -> cont -> option state.
Hypothesis body_advance :
  forall s k x, body s k = Some x -> exists s', advance s s' /\ k s' = Some x.

Lemma star_loop_advance (k : cont) :
  forall fuel s x, star_loop body k fuel s = Some x -> exists s', advance s s' /\ k s' = Some x.
Proof.
  induction fuel as [|fuel IH]; simpl; intros s x H.
  - exists s; split; [apply advance_refl | exact H].
  - apply orelse_some in H as [H|[_ H]].
    + apply body_advance in H as [s1 [A1 H]].
      destruct (Nat.ltb _ _).
      * apply IH in H as [s2 [A2 H]]. exists s2; split; [eapply advance_trans; eauto | exact H].
      * exists s1; split; assumption.
    + exists s; split; [apply advance_refl | exact H].
Qed.
End StarLoopAdvance.

(** A successful run hands to its continuation a state further in the
    subject. *)
Lemma run_advance (r : regex) :
  forall s k x, run r s k = Some x -> exists s', advance s s' /\ k s' = Some x.
Proof.
  induction r as [| c | | | | r1 IH1 r2 IH2 | r1 IH1 r2 IH2 | r IH | r IH | r IH | n r IH];
    intros s k x H.
  - exists s; split; [apply advance_refl | exact H].
  - simpl in H. destruct (rest s) as [|a t] eqn:E; [discriminate|].
    destruct (Ascii.eqb a c); [|discriminate].
    eexists; split; [eapply advance_char; exact E | exact H].
  - simpl in H. destruct (rest s) as [|a t] eqn:E; [discriminate|].
    destruct (Ascii.eqb a newline); [discriminate|].
    eexists; split; [eapply advance_char; exact E | exact H].
  - simpl in H. destruct (Nat.eqb (pos s) 0); [|discriminate].
    exists s; split; [apply advance_refl | exact H].
  - simpl in H. exists s; split; [apply advance_refl|].
    destruct (rest s) as [|a [|b t]]; try discriminate; [exact H|].
    destruct (Ascii.eqb a newline); [exact H | discriminate].
  - simpl in H. apply IH1 in H as [s1 [A1 H]]. apply IH2 in H as [s2 [A2 H]].
    exists s2; split; [eapply advance_trans; eauto | exact H].
  - simpl in H. apply orelse_some in H as [H|[_ H]]; [apply IH1 | apply IH2]; exact H.
  - exact (star_loop_advance (run r) IH k _ _ _ H).
  - change (run r s (fun s1 => star_loop (run r) k (S (String.length (rest s1))) s1) = Some x) in H.
    apply IH in H as [s1 [A1 H]].
    apply (star_loop_advance (run r) IH k) in H as [s2 [A2 H]].
    exists s2; split; [eapply advance_trans; eauto | exact H].
  - simpl in H. apply orelse_some in H as [H|[_ H]]; [apply IH; exact H|].
    exists s; split; [apply advance_refl | exact H].
  - simpl in H. apply IH in H as [s1 [A1 H]].
    eexists; split; [apply advance_caps; exact A1 | exact H].
Qed.

(** [match] reports a span that starts at offset 0 and covers a prefix of
    the subject. *)
Lemma match_span (p : pattern) (subject : string) (m : match_object) :
  match_ p subject = Some m ->
  m_start m = 0 /\
  exists pre post, subject = String.append pre post /\ m_end m = String.length pre.
Proof.
  unfold match_, match_here; intros H.
  destruct (run (ast p) _ _) as [x|] eqn:E; [|discriminate].
  injection H as <-. simpl. split; [reflexivity|].
  apply run_advance in E as [s' [[pre [R P]] K]]. simpl in *.
  injection K as <-. exists pre, (rest s'). split; [exact R | exact P].
Qed.

Lemma search_from_hit (p : pattern) (must_advance : bool) (start : nat) (suffix : string)
      (m : match_object) :
  match_here p must_advance start suffix = Some m ->
  search_from p must_advance start suffix = Some m.
Proof. intros H; destruct suffix; simpl; now rewrite H. Qed.

(** A successful [match] is the first thing [findall] finds. *)
Lemma findall_first (p : pattern) (subject : string) (m : match_object) :
  match_ p subject = Some m ->
  Py.index0 (findall p subject) = Py.Ok (find_item p subject m).
Proof.
  unfold findall, match_; intros H.
  replace (2 * String.length subject + 2) with (S (2 * String.length subject + 1)) by lia.
  cbn [findall_from drop].
  now rewrite (search_from_hit _ _ _ _ _ H).
Qed.

End ReFacts.

(* ================================================================== *)
(** ** The command table *)

Module TableFacts.
Import Py CommandRegistry Spec PyFacts.

Lemma plugin_eqb_true (a b : Plugin) : plugin_eqb a b = true <-> a = b.
Proof. unfold plugin_eqb; destruct (Plugin_eq_dec a b); split; congruence. Qed.

Lemma plugin_eqb_false (a b : Plugin) : plugin_eqb a b = false <-> a <> b.
Proof. unfold plugin_eqb; destruct (Plugin_eq_dec a b); split; congruence. Qed.

(** Entries on which [doomed] is false are never equal to one on which it
    is true. *)
Lemma spared_differ {A : Type} (doomed : A -> bool) (x : A) (kept : list A) :
  doomed x = true ->
  Forall (fun c => doomed c = false) kept ->
  Forall (fun y => y <> x) kept.
Proof.
  intros Hx H. eapply Forall_impl; [|exact H].
  intros y Hy ->. congruence.
Qed.

(** The removal loop over a copy of [_commands]: with the entries of
    [kept] already passed and spared, running it on [todo] leaves the
    spared entries of [todo], in order. *)
Lemma remove_loop_commands (doomed : Command -> bool) (modern : list ModernCommand) :
  forall todo kept,
    Forall (fun c => doomed c = false) kept ->
    for_each todo (fun c => if doomed c then remove_command c else ret tt)
             (mkRegistry (kept ++ todo) modern)
    = (mkRegistry (kept ++ filter (fun c => negb (doomed c)) todo) modern, Ok tt).
Proof.
  induction todo as [|c todo IH]; intros kept Hk; simpl.
  - reflexivity.
  - unfold bind. destruct (doomed c) eqn:E; simpl.
    + unfold remove_command; simpl.
      rewrite (list_remove_first _ Command_eq_dec c kept todo (spared_differ doomed c kept E Hk)).
      apply IH, Hk.
    + unfold ret.
      replace (kept ++ c :: todo) with ((kept ++ [c]) ++ todo) by now rewrite <- app_assoc.
      rewrite IH.
      * now rewrite <- app_assoc.
      * apply Forall_app; split; [exact Hk | repeat constructor; exact E].
Qed.

(** The same for [_modern_commands]. *)
Lemma remove_loop_modern (doomed : ModernCommand -> bool) (exact : list Command) :
  forall todo kept,
    Forall (fun c => doomed c = false) kept ->
    for_each todo (fun c => if doomed c then remove_modern_command c else ret tt)
             (mkRegistry exact (kept ++ todo))
    = (mkRegistry exact (kept ++ filter (fun c => negb (doomed c)) todo), Ok tt).
Proof.
  induction todo as [|c todo IH]; intros kept Hk; simpl.
  - reflexivity.
  - unfold bind. destruct (doomed c) eqn:E; simpl.
    + unfold remove_modern_command; simpl.
      rewrite (list_remove_first _ ModernCommand_eq_dec c kept todo (spared_differ doomed c kept E Hk)).
      apply IH, Hk.
    + unfold ret.
      replace (kept ++ c :: todo) with ((kept ++ [c]) ++ todo) by now rewrite <- app_assoc.
      rewrite IH.
      * now rewrite <- app_assoc.
      * apply Forall_app; split; [exact Hk | repeat constructor; exact E].
Qed.

(** [unregister_command] deletes the entries of that name and plugin, and
    never trips over [remove]. *)
Lemma unregister_command_filter (command_name : string) (owner : Plugin) (reg : Registry) :
  unregister_command command_name owner reg
  = (mkRegistry
       (filter (fun c => negb (String.eqb (command c) command_name && plugin_eqb (plugin c) owner))
               (_commands reg))
       (_modern_commands reg),
     Ok tt).
Proof.
  destruct reg as [exact modern]; unfold unregister_command; simpl.
  exact (remove_loop_commands
           (fun c => String.eqb (command c) command_name && plugin_eqb (plugin c) owner)
           modern exact [] (Forall_nil _)).
Qed.

Lemma unregister_all_filter (owner : Plugin) (reg : Registry) :
  unregister_all_commands_for_plugin owner reg = (without_plugin owner reg, Ok tt).
Proof.
  destruct reg as [exact modern]; unfold unregister_all_commands_for_plugin, bind; simpl.
  pose proof (remove_loop_commands (fun c => plugin_eqb (plugin c) owner)
                modern exact [] (Forall_nil _)) as H.
  simpl in H. rewrite H. simpl.
  exact (remove_loop_modern (fun c => plugin_eqb (modern_plugin c) owner)
           _ modern [] (Forall_nil _)).
Qed.

Lemma filter_all {A : Type} (f : A -> bool) (l : list A) :
  Forall (fun x => f x = true) l -> filter f l = l.
Proof. induction 1 as [|x l Hx _ IH]; simpl; [reflexivity | now rewrite Hx, IH]. Qed.

(** C9. [unregister_all_commands_for_plugin] leaves, in both lists, the
    entries of the other plugins in the order they had and nothing else; it
    raises nothing; and it changes nothing when the plugin owns no entry. *)
Theorem unregister_all_purges_owner_only (owner : Plugin) (reg : Registry) :
  unregister_all_commands_for_plugin owner reg = (without_plugin owner reg, Ok tt)
  /\ _commands (without_plugin owner reg)
     = filter (fun c => negb (plugin_eqb (plugin c) owner)) (_commands reg)
  /\ _modern_commands (without_plugin owner reg)
     = filter (fun c => negb (plugin_eqb (modern_plugin c) owner)) (_modern_commands reg)
  /\ (forall c, In c (_commands (without_plugin owner reg))
                <-> In c (_commands reg) /\ plugin c <> owner)
  /\ (forall c, In c (_modern_commands (without_plugin owner reg))
                <-> In c (_modern_commands reg) /\ modern_plugin c <> owner)
  /\ (Forall (fun c => plugin c <> owner) (_commands reg) ->
      Forall (fun c => modern_plugin c <> owner) (_modern_commands reg) ->
      unregister_all_commands_for_plugin owner reg = (reg, Ok tt)).
Proof.
  repeat split; try reflexivity.
  - apply unregister_all_filter.
  - simpl in H. apply filter_In in H. tauto.
  - simpl in H. apply filter_In in H as [_ H].
    unfold kept_command in H. intros <-.
    rewrite (proj2 (plugin_eqb_true _ _) eq_refl) in H. discriminate.
  - intros [Hin Hne]. simpl. apply filter_In. split; [exact Hin|].
    unfold kept_command. now rewrite (proj2 (plugin_eqb_false _ _) Hne).
  - simpl in H. apply filter_In in H. tauto.
  - simpl in H. apply filter_In in H as [_ H].
    unfold kept_modern_command in H. intros <-.
    rewrite (proj2 (plugin_eqb_true _ _) eq_refl) in H. discriminate.
  - intros [Hin Hne]. simpl. apply filter_In. split; [exact Hin|].
    unfold kept_modern_command. now rewrite (proj2 (plugin_eqb_false _ _) Hne).
  - intros H1 H2. rewrite unregister_all_filter. f_equal.
    destruct reg as [exact modern]; unfold without_plugin; simpl in *.
    f_equal; apply filter_all.
    + eapply Forall_impl; [|exact H1]. intros c Hc. unfold kept_command.
      now rewrite (proj2 (plugin_eqb_false _ _) Hc).
    + eapply Forall_impl; [|exact H2]. intros c Hc. unfold kept_modern_command.
      now rewrite (proj2 (plugin_eqb_false _ _) Hc).
Qed.

(** C8. [register_modern_command] compiles the pattern before it touches
    the list: when [re.compile] raises, the exception is the outcome and
    the registry is as it was; otherwise exactly one entry is appended
    to [_modern_commands], holding the pattern compiled by that one call
    next to its source, and [_commands] is as it was. *)
Theorem register_modern_command_compiles_first
        (re_compile : string -> result Re.pattern)
        (command description : string) (required_perm : Permission) (owner : Plugin)
        (command_handler : option Handler) (reg : Registry) :
  (forall e, re_compile command = Raise e ->
             register_modern_command re_compile command description required_perm owner
                                     command_handler reg
             = (reg, Raise e))
  /\ (forall compiled,
         re_compile command = Ok compiled ->
         register_modern_command re_compile command description required_perm owner
                                 command_handler reg
         = (mkRegistry (_commands reg)
                       (_modern_commands reg
                          ++ [mkModernCommand compiled command description required_perm owner
                                              command_handler]),
            Ok tt)).
Proof.
  unfold register_modern_command. split.
  - now intros e ->.
  - now intros compiled ->.
Qed.

End TableFacts.

(* ================================================================== *)
(** ** The dispatcher *)

Module DispatchFacts.
Import Py CommandRegistry Spec.

Lemma dbind_dret {A B : Type} (a : A) (f : A -> D B) : dbind (dret a) f = f a.
Proof. unfold dbind, dret. destruct (f a); reflexivity. Qed.

Lemma dbind_ok {A B : Type} (t : list effect) (a : A) (f : A -> D B) :
  dbind (t, Ok a) f = (t ++ fst (f a), snd (f a)).
Proof. unfold dbind. destruct (f a); reflexivity. Qed.

Lemma benign_absorbed (r : result unit) : benign r -> absorbed r = Ok tt.
Proof. intros [-> | ->]; reflexivity. Qed.

Lemma absorbed_not_timeout (r : result unit) : absorbed r <> Raise TimeoutError.
Proof. destruct r as [[]|[]]; simpl; discriminate. Qed.

Section Dispatch.
Variable config : Config.
Variable has_permission : Permission -> User -> bool.
Variable wait_for : Handler -> CommandSentEvent -> nat -> result unit.
Variable subscript_author : CommandSentEvent -> result User.

(** Awaiting a stored handler inside the [try]: the invocation, the
    warning if it timed out, and what the [except] clause lets through. *)
Lemma try_invoke (h : Handler) (ev : CommandSentEvent) (e : entry) (name : string) :
  try_except_timeout (invoke config wait_for (Some h) ev) (tell (Warning e name))
  = (awaited config wait_for h ev e name, absorbed (wait_for h ev (event_timeout config))).
Proof.
  unfold invoke, awaited, tell, lift, dbind, try_except_timeout; simpl.
  destruct (wait_for h ev (event_timeout config)) as [[]|[]]; reflexivity.
Qed.

(** One round of the first loop. *)
Lemma handle_exact_eq (command_name : string) (args : CommandSentEvent) (c : Command) :
  handle_exact config has_permission wait_for command_name args c
  = if exact_applies has_permission command_name args c
    then (exact_effects config wait_for args c, exact_outcome config wait_for args c)
    else dret tt.
Proof.
  unfold handle_exact, exact_applies, exact_effects, exact_outcome.
  destruct (String.eqb (command c) command_name); simpl; [|reflexivity].
  destruct (handler c) as [h|]; simpl; [|reflexivity].
  destruct (has_permission (required_permission c) (author args)); [|reflexivity].
  apply try_invoke.
Qed.

(** One round of the second loop, for an entry the text does not select. *)
Lemma handle_modern_unselected (args : CommandSentEvent) (c : ModernCommand) :
  modern_selected config args c = false ->
  handle_modern config has_permission wait_for subscript_author args c = dret tt.
Proof. unfold handle_modern, modern_selected. now intros ->. Qed.

(** One round of the second loop when the subscript fails. *)
Lemma handle_modern_subscript_raises (args : CommandSentEvent) (c : ModernCommand) (e : exn) :
  modern_selected config args c = true ->
  subscript_author args = Raise e ->
  handle_modern config has_permission wait_for subscript_author args c = ([], Raise e).
Proof. unfold handle_modern, modern_selected. intros -> ->. reflexivity. Qed.

(** One round of the second loop when the subscript yields [user]. *)
Lemma handle_modern_eq (args : CommandSentEvent) (user : User) (c : ModernCommand) :
  subscript_author args = Ok user ->
  handle_modern config has_permission wait_for subscript_author args c
  = if modern_applies config has_permission args user c
    then (modern_effects config wait_for args c, modern_outcome config wait_for args c)
    else dret tt.
Proof.
  intros S. unfold handle_modern, modern_applies, modern_selected,
    modern_effects, modern_outcome, modern_event, captured.
  destruct (Re.match_ (modern_command c) (command_body config args)) as [m|] eqn:E;
    simpl; [|reflexivity].
  destruct (modern_handler c) as [h|]; simpl; [|reflexivity].
  rewrite S, (ReFacts.findall_first _ _ _ E).
  destruct (has_permission (modern_required_permission c) user); [|reflexivity].
  unfold awaited, try_except_timeout, tell.
  destruct (wait_for h _ (event_timeout config)) as [[]|[]]; reflexivity.
Qed.

(** *** The loops *)

Lemma dfor_each_app {A : Type} (l1 l2 : list A) (body : A -> D unit) :
  dfor_each (l1 ++ l2) body = dbind (dfor_each l1 body) (fun _ => dfor_each l2 body).
Proof.
  induction l1 as [|x l1 IH]; cbn [dfor_each app].
  - now rewrite dbind_dret.
  - rewrite IH. unfold dbind. destruct (body x) as [t [[]|e]]; [|reflexivity].
    destruct (dfor_each l1 body) as [t1 [[]|e1]]; [|reflexivity].
    destruct (dfor_each l2 body) as [t2 r2]. now rewrite app_assoc.
Qed.

(** Rounds that do nothing can be left out of a loop. *)
Lemma dfor_each_filter {A : Type} (f : A -> bool) (body : A -> D unit) (l : list A) :
  (forall x, f x = false -> body x = dret tt) ->
  dfor_each l body = dfor_each (filter f l) body.
Proof.
  intros H. induction l as [|x l IH]; cbn [dfor_each filter]; [reflexivity|].
  destruct (f x) eqn:E; cbn [dfor_each]; [now rewrite IH|].
  now rewrite (H x E), dbind_dret.
Qed.


(** A loop in which every round that runs ends well. *)
Lemma dfor_each_trace {A : Type} (applies : A -> bool) (effects : A -> list effect)
      (body : A -> D unit) (l : list A) :
  Forall (fun x => body x = if applies x then (effects x, Ok tt) else dret tt) l ->
  dfor_each l body = (flat_map effects (filter applies l), Ok tt).
Proof.
  induction 1 as [|x l Hx _ IH]; cbn [dfor_each filter]; [reflexivity|].
  rewrite Hx, IH. destruct (applies x); cbn [flat_map].
  - now rewrite dbind_ok.
  - now rewrite dbind_dret.
Qed.

Lemma exact_loop_trace (command_name : string) (args : CommandSentEvent) (l : list Command) :
  exact_handlers_benign config has_permission wait_for command_name args l ->
  dfor_each l (handle_exact config has_permission wait_for command_name args)
  = (flat_map (exact_effects config wait_for args)
              (filter (exact_applies has_permission command_name args) l),
     Ok tt).
Proof.
  intros H. apply dfor_each_trace.
  eapply Forall_impl; [|exact H]. intros c Hc. rewrite handle_exact_eq.
  simpl in Hc. destruct (exact_applies _ _ _ c); [|reflexivity].
  unfold exact_outcome, exact_effects.
  destruct (handler c) as [h|] eqn:Eh; [|reflexivity].
  now rewrite (benign_absorbed _ (Hc eq_refl h eq_refl)).
Qed.

Lemma modern_loop_trace (args : CommandSentEvent) (user : User) (l : list ModernCommand) :
  subscript_author args = Ok user ->
  modern_handlers_benign config has_permission wait_for args user l ->
  dfor_each l (handle_modern config has_permission wait_for subscript_author args)
  = (flat_map (modern_effects config wait_for args)
              (filter (modern_applies config has_permission args user) l),
     Ok tt).
Proof.
  intros S H. apply dfor_each_trace.
  eapply Forall_impl; [|exact H]. intros c Hc. rewrite (handle_modern_eq _ _ c S).
  simpl in Hc. destruct (modern_applies _ _ _ _ c); [|reflexivity].
  unfold modern_outcome, modern_effects.
  destruct (modern_handler c) as [h|] eqn:Eh; [|reflexivity].
  now rewrite (benign_absorbed _ (Hc eq_refl h eq_refl)).
Qed.

(** The whole dispatch when no handler raises and the subscript works. *)
Lemma handle_command_trace (command_name : string) (args : CommandSentEvent) (user : User)
      (reg : Registry) :
  subscript_author args = Ok user ->
  exact_handlers_benign config has_permission wait_for command_name args (_commands reg) ->
  modern_handlers_benign config has_permission wait_for args user (_modern_commands reg) ->
  handle_command config has_permission wait_for subscript_author command_name args reg
  = (flat_map (exact_effects config wait_for args)
              (filter (exact_applies has_permission command_name args) (_commands reg))
     ++ flat_map (modern_effects config wait_for args)
                 (filter (modern_applies config has_permission args user) (_modern_commands reg)),
     Ok tt).
Proof.
  intros S H1 H2. unfold handle_command.
  rewrite (exact_loop_trace command_name _ _ H1), dbind_ok, (modern_loop_trace _ _ _ S H2).
  reflexivity.
Qed.

(** The effects of the first loop open the trace of every dispatch. *)
Lemma handle_command_exact_prefix (command_name : string) (args : CommandSentEvent)
      (reg : Registry) :
  exact_handlers_benign config has_permission wait_for command_name args (_commands reg) ->
  exists rest,
    fst (handle_command config has_permission wait_for subscript_author command_name args reg)
    = flat_map (exact_effects config wait_for args)
               (filter (exact_applies has_permission command_name args) (_commands reg))
      ++ rest.
Proof.
  intros H. unfold handle_command.
  rewrite (exact_loop_trace command_name _ _ H), dbind_ok. simpl. eauto.
Qed.

(** *** Timeouts *)

Lemma balanced_nil : balanced wait_for [].
Proof. reflexivity. Qed.

Lemma balanced_app (t1 t2 : list effect) :
  balanced wait_for t1 -> balanced wait_for t2 -> balanced wait_for (t1 ++ t2).
Proof.
  unfold balanced. intros H1 H2.
  now rewrite !filter_app, !length_app, H1, H2.
Qed.

Lemma balanced_awaited (h : Handler) (ev : CommandSentEvent) (e : entry) (name : string) :
  balanced wait_for (awaited config wait_for h ev e name).
Proof.
  unfold balanced, awaited. cbn [filter is_warning is_invoke negb timed_out].
  destruct (wait_for h ev (event_timeout config)) as [[]|[]]; reflexivity.
Qed.

Lemma balanced_dbind (m : D unit) (f : unit -> D unit) :
  balanced wait_for (fst m) -> balanced wait_for (fst (f tt)) ->
  balanced wait_for (fst (dbind m f)).
Proof.
  destruct m as [t [[]|e]]; simpl; intros H1 H2; [|exact H1].
  destruct (f tt) as [t' r]. now apply balanced_app.
Qed.

Lemma balanced_loop {A : Type} (body : A -> D unit) (l : list A) :
  (forall x, balanced wait_for (fst (body x))) ->
  balanced wait_for (fst (dfor_each l body)).
Proof.
  intros H. induction l as [|x l IH]; cbn [dfor_each]; [apply balanced_nil|].
  now apply balanced_dbind.
Qed.

Lemma balanced_exact (command_name : string) (args : CommandSentEvent) (c : Command) :
  balanced wait_for (fst (handle_exact config has_permission wait_for command_name args c)).
Proof.
  rewrite handle_exact_eq. destruct (exact_applies _ _ _ c); [|apply balanced_nil].
  unfold exact_effects; simpl. destruct (handler c); [apply balanced_awaited | apply balanced_nil].
Qed.

Lemma balanced_modern (args : CommandSentEvent) (c : ModernCommand) :
  balanced wait_for
           (fst (handle_modern config has_permission wait_for subscript_author args c)).
Proof.
  destruct (subscript_author args) as [user|e] eqn:S.
  - rewrite (handle_modern_eq _ _ c S). destruct (modern_applies _ _ _ _ c); [|apply balanced_nil].
    unfold modern_effects; simpl.
    destruct (modern_handler c); [apply balanced_awaited | apply balanced_nil].
  - destruct (modern_selected config args c) eqn:E.
    + rewrite (handle_modern_subscript_raises _ c _ E S). apply balanced_nil.
    + rewrite (handle_modern_unselected args c E). apply balanced_nil.
Qed.

Lemma dbind_raises (m : D unit) (f : unit -> D unit) (e : exn) :
  snd (dbind m f) = Raise e -> snd m = Raise e \/ snd (f tt) = Raise e.
Proof.
  destruct m as [t [[]|e']]; simpl; [|now left].
  destruct (f tt); simpl; now right.
Qed.

Lemma loop_raises {A : Type} (body : A -> D unit) (l : list A) (e : exn) :
  snd (dfor_each l body) = Raise e -> exists x, In x l /\ snd (body x) = Raise e.
Proof.
  induction l as [|x l IH]; cbn [dfor_each]; [discriminate|].
  intros H. apply dbind_raises in H as [H|H].
  - exists x; split; [now left | exact H].
  - destruct (IH H) as [y [Hy E]]. exists y; split; [now right | exact E].
Qed.

Lemma exact_round_raises (command_name : string) (args : CommandSentEvent) (c : Command)
      (e : exn) :
  snd (handle_exact config has_permission wait_for command_name args c) = Raise e ->
  exists h, handler c = Some h /\ wait_for h args (event_timeout config) = Raise e
            /\ e <> TimeoutError.
Proof.
  rewrite handle_exact_eq. destruct (exact_applies _ _ _ c); [|discriminate].
  unfold exact_outcome; simpl. destruct (handler c) as [h|]; [|discriminate].
  intros H. exists h. split; [reflexivity|].
  destruct (wait_for h args (event_timeout config)) as [[]|[]]; simpl in H;
    try discriminate; injection H as <-; split; (reflexivity || discriminate).
Qed.

Lemma modern_round_raises (args : CommandSentEvent) (c : ModernCommand) (e : exn) :
  snd (handle_modern config has_permission wait_for subscript_author args c) = Raise e ->
  subscript_author args = Raise e
  \/ exists h, modern_handler c = Some h
               /\ wait_for h (modern_event config args c) (event_timeout config) = Raise e
               /\ e <> TimeoutError.
Proof.
  destruct (subscript_author args) as [user|e'] eqn:S.
  - rewrite (handle_modern_eq _ _ c S). destruct (modern_applies _ _ _ _ c); [|discriminate].
    unfold modern_outcome; simpl. destruct (modern_handler c) as [h|]; [|discriminate].
    intros H. right. exists h. split; [reflexivity|].
    destruct (wait_for h _ (event_timeout config)) as [[]|[]]; simpl in H;
      try discriminate; injection H as <-; split; (reflexivity || discriminate).
  - destruct (modern_selected config args c) eqn:E.
    + rewrite (handle_modern_subscript_raises _ c _ E S). simpl. intros H; injection H as <-. now left.
    + rewrite (handle_modern_unselected args c E). discriminate.
Qed.

(** Where an exception of a dispatch comes from. *)
Lemma handle_command_raises (command_name : string) (args : CommandSentEvent) (reg : Registry)
      (e : exn) :
  snd (handle_command config has_permission wait_for subscript_author command_name args reg)
  = Raise e ->
  subscript_author args = Raise e
  \/ e <> TimeoutError /\ exists h ev, wait_for h ev (event_timeout config) = Raise e.
Proof.
  unfold handle_command. intros H. apply dbind_raises in H as [H|H].
  - apply loop_raises in H as [c [_ H]].
    apply exact_round_raises in H as [h [_ [W N]]]. right. split; [exact N | eauto].
  - apply loop_raises in H as [c [_ H]].
    apply modern_round_raises in H as [H|[h [_ [W N]]]]; [now left|].
    right. split; [exact N | eauto].
Qed.

End Dispatch.
End DispatchFacts.

(* ================================================================== *)
(** ** Properties of dispatch *)

Module DispatchProperties.
Import Py CommandRegistry Spec DispatchFacts.





(** C6. Every invocation that times out is followed by one warning that
    carries the entry (its command among its keys) and the name of the
    owning plugin, and the loop goes on with the next entry; over a whole
    dispatch there are as many warnings as invocations that timed out; and
    a dispatch never ends in [TimeoutError] unless the failing subscript of
    the event itself is one. *)
Theorem timeouts_are_absorbed_and_reported_once
        (config : Config) (has_permission : Permission -> User -> bool)
        (wait_for : Handler -> CommandSentEvent -> nat -> result unit)
        (subscript_author : CommandSentEvent -> result User)
        (command_name : string) (args : CommandSentEvent) (reg : Registry) :
  balanced wait_for
    (fst (handle_command config has_permission wait_for subscript_author command_name args reg))
  /\ (subscript_author args <> Raise TimeoutError ->
      snd (handle_command config has_permission wait_for subscript_author command_name args reg)
      <> Raise TimeoutError)
  /\ (forall c h rest,
         command c = command_name -> handler c = Some h ->
         has_permission (required_permission c) (author args) = true ->
         wait_for h args (event_timeout config) = Raise TimeoutError ->
         dfor_each (c :: rest) (handle_exact config has_permission wait_for command_name args)
         = (Invoke h args (event_timeout config)
              :: Warning (Exact c) (manifest_name (plugin c))
              :: fst (dfor_each rest
                        (handle_exact config has_permission wait_for command_name args)),
            snd (dfor_each rest
                   (handle_exact config has_permission wait_for command_name args))))
  /\ (forall c h user rest,
         subscript_author args = Ok user ->
         modern_selected config args c = true -> modern_handler c = Some h ->
         has_permission (modern_required_permission c) user = true ->
         wait_for h (modern_event config args c) (event_timeout config) = Raise TimeoutError ->
         dfor_each (c :: rest)
                   (handle_modern config has_permission wait_for subscript_author args)
         = (Invoke h (modern_event config args c) (event_timeout config)
              :: Warning (Pattern c) (manifest_name (modern_plugin c))
              :: fst (dfor_each rest
                        (handle_modern config has_permission wait_for subscript_author args)),
            snd (dfor_each rest
                   (handle_modern config has_permission wait_for subscript_author args)))).
Proof.
  split; [|split; [|split]].
  - unfold handle_command. apply balanced_dbind; apply balanced_loop; intros c.
    + apply balanced_exact.
    + apply balanced_modern.
  - intros N H.
    destruct (handle_command_raises config has_permission wait_for subscript_author
                command_name args reg TimeoutError H) as [S|[T _]]; [|now apply T].
    apply N. exact S.
  - intros c h rest Hn Hh Hp Hw. cbn [dfor_each].
    rewrite handle_exact_eq. unfold exact_applies, exact_effects, exact_outcome, awaited.
    rewrite Hn, String.eqb_refl, Hh, Hp, Hw. cbn - [dbind dfor_each].
    now rewrite dbind_ok.
  - intros c h user rest S Hs Hh Hp Hw. cbn [dfor_each].
    rewrite (handle_modern_eq _ _ _ _ args user c S).
    unfold modern_applies, modern_effects, modern_outcome, awaited.
    rewrite Hs, Hh, Hp, Hw. cbn - [dbind dfor_each].
    now rewrite dbind_ok.
Qed.

(** C10. Registering without a handler appends an entry whose handler is
    [None]; the entry is listed by [get_info_for_command] under its name
    and by [get_available_commands_for_user] for every user who holds its
    permission; the round of either loop for an entry without a handler
    does nothing, and a dispatch is the same as on the registry without
    the exact entries that have no handler. *)
Theorem handlerless_entry_is_listed_but_never_run
        (config : Config) (has_permission : Permission -> User -> bool)
        (wait_for : Handler -> CommandSentEvent -> nat -> result unit)
        (subscript_author : CommandSentEvent -> result User)
        (name description : string) (perm : Permission) (owner : Plugin) (reg : Registry) :
  let e := mkCommand name description perm owner None in
  let reg' := mkRegistry (_commands reg ++ [e]) (_modern_commands reg) in
  register_command_without_handler name description perm owner reg = (reg', Ok tt)
  /\ In e (get_info_for_command name reg')
  /\ (forall user, has_permission perm user = true ->
                   In e (get_available_commands_for_user has_permission user reg'))
  /\ (forall command_name args c,
         handler c = None ->
         handle_exact config has_permission wait_for command_name args c = dret tt)
  /\ (forall args c,
         modern_handler c = None ->
         handle_modern config has_permission wait_for subscript_author args c = dret tt)
  /\ (forall command_name args r,
         handle_command config has_permission wait_for subscript_author command_name args r
         = handle_command config has_permission wait_for subscript_author command_name args
                          (with_handler r)).
Proof.
  intros e reg'.
  assert (E : forall command_name args c,
             is_not_None (handler c) = false ->
             handle_exact config has_permission wait_for command_name args c = dret tt).
  { intros command_name args c H. unfold handle_exact. now rewrite H, andb_false_r. }
  repeat split.
  - unfold get_info_for_command, reg'; simpl. apply filter_In. split.
    + apply in_or_app; right; now left.
    + apply String.eqb_refl.
  - intros user H. unfold get_available_commands_for_user, reg'; simpl.
    apply filter_In. split; [apply in_or_app; right; now left | exact H].
  - intros command_name args c H. apply E. now rewrite H.
  - intros args c H. unfold handle_modern. now rewrite H, andb_false_r.
  - intros command_name args r. unfold handle_command, with_handler; simpl.
    now rewrite <- (dfor_each_filter _ _ (_commands r) (E command_name args)).
Qed.

(** C1, as the code has it.  A pattern entry is selected exactly when
    [Pattern.match] succeeds on the stripped text: without a match its
    round does nothing, and with one (a handler, and the permission) its
    handler is invoked.  A match starts at offset 0 and covers some prefix
    of the text, not necessarily all of it; every full match is a match. *)
Theorem pattern_entries_are_selected_by_match
        (config : Config) (has_permission : Permission -> User -> bool)
        (wait_for : Handler -> CommandSentEvent -> nat -> result unit)
        (subscript_author : CommandSentEvent -> result User)
        (args : CommandSentEvent) (c : ModernCommand) :
  (Re.match_ (modern_command c) (command_body config args) = None ->
   handle_modern config has_permission wait_for subscript_author args c = dret tt)
  /\ (forall m h user,
         Re.match_ (modern_command c) (command_body config args) = Some m ->
         modern_handler c = Some h ->
         subscript_author args = Ok user ->
         has_permission (modern_required_permission c) user = true ->
         exists tail,
           fst (handle_modern config has_permission wait_for subscript_author args c)
           = Invoke h (modern_event config args c) (event_timeout config) :: tail)
  /\ (forall m,
         Re.match_ (modern_command c) (command_body config args) = Some m ->
         Re.m_start m = 0
         /\ exists pre post, command_body config args = String.append pre post
                             /\ Re.m_end m = String.length pre)
  /\ (forall m,
         Re.fullmatch (modern_command c) (command_body config args) = Some m ->
         exists m', Re.match_ (modern_command c) (command_body config args) = Some m').
Proof.
  split; [|split; [|split]].
  - intros H. apply handle_modern_unselected. unfold modern_selected. now rewrite H.
  - intros m h user Hm Hh S Hp.
    rewrite (handle_modern_eq _ _ _ _ args user c S).
    unfold modern_applies, modern_selected, modern_effects, awaited.
    rewrite Hm, Hh, Hp. simpl. eauto.
  - intros m. apply ReFacts.match_span.
  - intros m. apply ReFacts.fullmatch_match.
Qed.

(** C7, as the code has it.  The handler of a pattern entry that is run
    receives an event whose argument slot holds the first item of
    [findall] on the stripped text, which is the item of the match found
    by [match]: the whole matched text when the pattern has no group, the
    text of the group when it has one (empty when the group took no part),
    the tuple of the texts of all groups when it has more. *)
Theorem captured_argument_is_first_findall_item
        (config : Config) (has_permission : Permission -> User -> bool)
        (wait_for : Handler -> CommandSentEvent -> nat -> result unit)
        (subscript_author : CommandSentEvent -> result User)
        (args : CommandSentEvent) (c : ModernCommand)
        (m : Re.match_object) (h : Handler) (user : User) :
  Re.match_ (modern_command c) (command_body config args) = Some m ->
  modern_handler c = Some h ->
  subscript_author args = Ok user ->
  has_permission (modern_required_permission c) user = true ->
  let body := command_body config args in
  let p := modern_command c in
  (exists tail,
      fst (handle_modern config has_permission wait_for subscript_author args c)
      = Invoke h (mkEvent (message args) (author args) (channel args) (command_string c)
                          (Re.find_item p body m))
               (event_timeout config) :: tail)
  /\ index0 (Re.findall p body) = Ok (Re.find_item p body m)
  /\ (Re.groups p = 0 -> Re.find_item p body m = VStr (Re.group0 body m))
  /\ (Re.groups p = 1 ->
      Re.find_item p body m
      = VStr (match Re.group m 1 with Some t => t | None => EmptyString end))
  /\ (2 <= Re.groups p ->
      Re.find_item p body m = VTuple (map (Re.group_text m) (seq 1 (Re.groups p)))).
Proof.
  intros Hm Hh S Hp body p.
  split; [|split; [|split; [|split]]].
  - rewrite (handle_modern_eq _ _ _ _ args user c S).
    unfold modern_applies, modern_selected, modern_effects, awaited, modern_event, captured.
    rewrite Hm, Hh, Hp. simpl. eauto.
  - now apply ReFacts.findall_first.
  - unfold Re.find_item. now intros ->.
  - unfold Re.find_item, Re.group_text. now intros ->.
  - unfold Re.find_item. destruct (Re.groups p) as [|[|n]]; [lia | lia | reflexivity].
Qed.

(** The stripped text never starts with a character of the prefix. *)
Lemma command_body_head (config : Config) (args : CommandSentEvent) (c : ascii) (t : string) :
  command_body config args = String c t -> char_in c (command_prefix config) = false.
Proof. unfold command_body. apply PyFacts.lstrip_head. Qed.

(** C2, on the code.  With the prefix ["!"], the text ["!!ping"] is
    stripped to ["ping"], where removing one copy of the prefix leaves
    ["!ping"]; with the prefix ["ab"], the text ["babble"], which does not
    start with the prefix, is stripped to ["le"]. *)
Theorem lstrip_drops_every_leading_prefix_character :
  command_body (mkConfig 5 "!") (Scenario.said Scenario.alice "ping" "!!ping") = "ping"
  /\ removeprefix "!!ping" "!" = "!ping"
  /\ command_body (mkConfig 5 "ab") (Scenario.said Scenario.alice "babble" "babble") = "le"
  /\ removeprefix "babble" "ab" = "babble".
Proof. repeat split. Qed.

End DispatchProperties.

(* ================================================================== *)
(** ** The properties on the concrete deployment *)

Module Examples.
Import Py CommandRegistry Spec Scenario TableFacts DispatchProperties.

(** The pattern [ping] is found at the start of [pingpong] although it does
    not match the whole of it, and the entry's handler is invoked for the
    message [!pingpong]. *)
Lemma prefix_match_selects_entry :
  exists p,
    Re.compile "ping" = Ok p
    /\ Re.fullmatch p "pingpong" = None
    /\ command_body config (said alice "pingpong" "!pingpong") = "pingpong"
    /\ dispatch "pingpong" (said alice "pingpong" "!pingpong") ping_only
       = ([Invoke quick (mkEvent (mkMessage 100 "!pingpong") alice 7 "ping" (VStr "ping")) 5],
          Ok tt).
Proof. eexists. repeat split. Qed.

(** An anchored pattern behaves as the spec's example says. *)
Example anchored_ping :
  exists p,
    Re.compile "^ping$" = Ok p
    /\ is_not_None (Re.match_ p "ping") = true
    /\ Re.match_ p "pingpong" = None.
Proof. eexists. repeat split. Qed.

Example ping_only_entries : ping_only = mkRegistry [] [ping_entry].
Proof. reflexivity. Qed.

Example echo_only_entries : echo_only = mkRegistry [] [echo_entry].
Proof. reflexivity. Qed.

(** [pattern_entries_are_selected_by_match] at the pattern [ping] and the
    message [!pingpong]. *)
Lemma pattern_entries_are_selected_by_match_witness :
  exists tail,
    fst (handle_modern config has_permission wait_for subscript_author
                       (said alice "pingpong" "!pingpong") ping_entry)
    = Invoke quick (mkEvent (mkMessage 100 "!pingpong") alice 7 "ping" (VStr "ping")) 5 :: tail.
Proof.
  exact (proj1 (proj2 (pattern_entries_are_selected_by_match
                         config has_permission wait_for subscript_author
                         (said alice "pingpong" "!pingpong") ping_entry))
               (Re.mkMatch 0 4 []) quick alice eq_refl eq_refl eq_refl eq_refl).
Defined.

(** A pattern without a group: the handler receives the whole matched
    text, not an empty argument. *)
Lemma groupless_pattern_captures_matched_text :
  exists p,
    Re.compile "ping" = Ok p
    /\ Re.groups p = 0
    /\ dispatch "ping" (said alice "ping" "!ping") ping_only
       = ([Invoke quick (mkEvent (mkMessage 100 "!ping") alice 7 "ping" (VStr "ping")) 5],
          Ok tt).
Proof. eexists. repeat split. Qed.

(** The spec's scenario: [echo (.+)] on [echo test] hands over [test]. *)
Lemma captured_argument_is_first_findall_item_witness :
  exists tail,
    fst (handle_modern config has_permission wait_for subscript_author
                       (said alice "echo" "!echo test") echo_entry)
    = Invoke quick (mkEvent (mkMessage 100 "!echo test") alice 7 "echo (.+)" (VStr "test")) 5
        :: tail.
Proof.
  exact (proj1 (captured_argument_is_first_findall_item
                  config has_permission wait_for subscript_author
                  (said alice "echo" "!echo test") echo_entry
                  (Re.mkMatch 0 9 [(1, "test")]) quick alice
                  eq_refl eq_refl eq_refl eq_refl)).
Defined.

(** The same through registration and a whole dispatch. *)
Example echo_test :
  dispatch "echo" (said alice "echo" "!echo test") echo_only
  = ([Invoke quick (mkEvent (mkMessage 100 "!echo test") alice 7 "echo (.+)" (VStr "test")) 5],
     Ok tt).
Proof. reflexivity. Qed.

(** *** The crowded registry *)

Example crowded_entries :
  crowded
  = mkRegistry
      [mkCommand "hello" "greets" everyone core (Some stuck);
       mkCommand "hello" "greets admins" admins games (Some faulty);
       mkCommand "hello" "greets again" everyone games (Some quick);
       mkCommand "help" "lists the commands" everyone core None]
      [mkModernCommand (compiled "hel+o") "hel+o" "greets loosely" everyone games (Some stuck);
       mkModernCommand (compiled "bye") "bye" "parts" everyone core (Some faulty)].
Proof. reflexivity. Qed.

(** What [mallory] gets for [!hello]: the first entry hangs and is
    reported, the second is not for her, the third answers, the loose
    pattern hangs and is reported. *)
Example mallory_says_hello :
  dispatch "hello" (said mallory "hello" "!hello") crowded
  = ([Invoke stuck (said mallory "hello" "!hello") 5;
      Warning (Exact (mkCommand "hello" "greets" everyone core (Some stuck))) "core";
      Invoke quick (said mallory "hello" "!hello") 5;
      Invoke stuck (mkEvent (mkMessage 100 "!hello") mallory 7 "hel+o" (VStr "hello")) 5;
      Warning (Pattern (mkModernCommand (compiled "hel+o") "hel+o" "greets loosely"
                                        everyone games (Some stuck)))
              "games"],
     Ok tt).
Proof. reflexivity. Qed.

(** What [alice], an admin, gets: the second entry raises, and with it the
    dispatch; the third entry is not reached. *)
Example alice_says_hello :
  dispatch "hello" (said alice "hello" "!hello") crowded
  = ([Invoke stuck (said alice "hello" "!hello") 5;
      Warning (Exact (mkCommand "hello" "greets" everyone core (Some stuck))) "core";
      Invoke faulty (said alice "hello" "!hello") 5],
     Raise (HandlerError 7)).
Proof. reflexivity. Qed.






Lemma timeouts_are_absorbed_and_reported_once_witness :
  balanced wait_for (fst (dispatch "hello" (said mallory "hello" "!hello") crowded))
  /\ snd (dispatch "hello" (said mallory "hello" "!hello") crowded) <> Raise TimeoutError.
Proof.
  split.
  - exact (proj1 (timeouts_are_absorbed_and_reported_once
                    config has_permission wait_for subscript_author
                    "hello" (said mallory "hello" "!hello") crowded)).
  - apply (proj1 (proj2 (timeouts_are_absorbed_and_reported_once
                           config has_permission wait_for subscript_author
                           "hello" (said mallory "hello" "!hello") crowded))).
    discriminate.
Defined.

Lemma register_modern_command_compiles_first_witness :
  register_modern_command Re.compile "(" "unbalanced" everyone core (Some quick) crowded
  = (crowded, Raise ReError)
  /\ register_modern_command Re.compile "ping" "answers" everyone core (Some quick) init
     = (ping_only, Ok tt).
Proof.
  split.
  - exact (proj1 (register_modern_command_compiles_first
                    Re.compile "(" "unbalanced" everyone core (Some quick) crowded)
                 ReError eq_refl).
  - exact (proj2 (register_modern_command_compiles_first
                    Re.compile "ping" "answers" everyone core (Some quick) init)
                 (compiled "ping") eq_refl).
Defined.

Lemma unregister_all_purges_owner_only_witness :
  unregister_all_commands_for_plugin core crowded
  = (mkRegistry
       [mkCommand "hello" "greets admins" admins games (Some faulty);
        mkCommand "hello" "greets again" everyone games (Some quick)]
       [mkModernCommand (compiled "hel+o") "hel+o" "greets loosely" everyone games (Some stuck)],
     Ok tt).
Proof.
  exact (proj1 (unregister_all_purges_owner_only core crowded)).
Defined.

Lemma handlerless_entry_is_listed_but_never_run_witness :
  In (mkCommand "help" "lists the commands" everyone core None)
     (get_info_for_command "help" crowded)
  /\ In (mkCommand "help" "lists the commands" everyone core None)
        (get_available_commands_for_user has_permission mallory crowded)
  /\ dispatch "help" (said mallory "help" "!help") crowded = ([], Ok tt).
Proof.
  pose proof (handlerless_entry_is_listed_but_never_run
                config has_permission wait_for subscript_author
                "help" "lists the commands" everyone core
                (mkRegistry
                   [mkCommand "hello" "greets" everyone core (Some stuck);
                    mkCommand "hello" "greets admins" admins games (Some faulty);
                    mkCommand "hello" "greets again" everyone games (Some quick)]
                   [mkModernCommand (compiled "hel+o") "hel+o" "greets loosely"
                                    everyone games (Some stuck);
                    mkModernCommand (compiled "bye") "bye" "parts" everyone core (Some faulty)]))
    as [_ [L [U [_ [_ W]]]]].
  split; [exact L | split; [exact (U mallory eq_refl)|]].
  unfold dispatch. rewrite W. reflexivity.
Defined.

End Examples.

(* ================================================================== *)
(** ** More on the command table: removal by name, queries, round trips *)

Module TableProperties.
Import Py CommandRegistry Spec Notions PyFacts TableFacts.

Lemma filter_twice {A : Type} (f g : A -> bool) (l : list A) :
  filter f (filter g l) = filter (fun x => g x && f x) l.
Proof.
  induction l as [|x l IH]; simpl; [reflexivity|].
  destruct (g x); simpl; [destruct (f x)|]; now rewrite IH.
Qed.

Lemma filter_swap {A : Type} (f g : A -> bool) (l : list A) :
  filter f (filter g l) = filter g (filter f l).
Proof. rewrite !filter_twice. apply filter_ext. intros x. apply andb_comm. Qed.

Lemma named_by_true (name : string) (owner : Plugin) (c : Command) :
  named_by name owner c = true <-> command c = name /\ plugin c = owner.
Proof.
  unfold named_by. rewrite andb_true_iff, String.eqb_eq, plugin_eqb_true. reflexivity.
Qed.

Lemma unregister_command_without (name : string) (owner : Plugin) (reg : Registry) :
  unregister_command name owner reg = (without_command name owner reg, Ok tt).
Proof. apply unregister_command_filter. Qed.

(** X1. [unregister_command] deletes from [_commands] exactly the entries
    registered under that name by that plugin, however many there are and
    wherever they stand; the other entries keep their order,
    [_modern_commands] is not touched, and [list.remove] never fails. *)
Theorem unregister_command_removes_name_of_plugin
        (name : string) (owner : Plugin) (reg : Registry) :
  unregister_command name owner reg = (without_command name owner reg, Ok tt)
  /\ _commands (without_command name owner reg)
     = filter (fun c => negb (String.eqb (command c) name && plugin_eqb (plugin c) owner))
              (_commands reg)
  /\ (forall c, In c (_commands (without_command name owner reg))
                <-> In c (_commands reg) /\ ~ (command c = name /\ plugin c = owner))
  /\ _modern_commands (without_command name owner reg) = _modern_commands reg
  /\ (Forall (fun c => ~ (command c = name /\ plugin c = owner)) (_commands reg) ->
      unregister_command name owner reg = (reg, Ok tt)).
Proof.
  split; [apply unregister_command_without|].
  split; [reflexivity|].
  split; [|split; [reflexivity|]].
  - intros c. unfold without_command; simpl. rewrite filter_In, negb_true_iff.
    rewrite <- named_by_true. destruct (named_by name owner c); intuition congruence.
  - intros H. rewrite unregister_command_without. f_equal.
    destruct reg as [exact modern]; unfold without_command; simpl in *. f_equal.
    apply filter_all. eapply Forall_impl; [|exact H].
    intros c Hc. apply negb_true_iff.
    destruct (named_by name owner c) eqn:E; [|reflexivity].
    apply named_by_true in E. contradiction.
Qed.

(** X2. Registering a command and then unregistering its name for the
    same plugin leaves what unregistering alone leaves: the new entry goes,
    and with it every older entry of that name and plugin.  When there was
    no such older entry the registry is back as it was. *)
Theorem register_then_unregister
        (name description : string) (perm : Permission) (owner : Plugin)
        (h : option Handler) (reg : Registry) :
  bind (register_command name description perm owner h)
       (fun _ => unregister_command name owner) reg
  = unregister_command name owner reg
  /\ (Forall (fun c => ~ (command c = name /\ plugin c = owner)) (_commands reg) ->
      bind (register_command name description perm owner h)
           (fun _ => unregister_command name owner) reg
      = (reg, Ok tt)).
Proof.
  assert (E : bind (register_command name description perm owner h)
                   (fun _ => unregister_command name owner) reg
              = unregister_command name owner reg).
  { unfold bind, register_command, append_command.
    rewrite !unregister_command_without. f_equal.
    unfold without_command; simpl. f_equal.
    rewrite filter_app; simpl.
    replace (named_by name owner (mkCommand name description perm owner h)) with true.
    - simpl. apply app_nil_r.
    - symmetry. apply named_by_true. now split. }
  split; [exact E|].
  intros H. rewrite E, unregister_command_without. f_equal.
  destruct reg as [exact modern]; unfold without_command; simpl in *. f_equal.
  apply filter_all. eapply Forall_impl; [|exact H].
  intros c Hc. apply negb_true_iff.
  destruct (named_by name owner c) eqn:N; [|reflexivity].
  apply named_by_true in N. contradiction.
Qed.

Lemma kept_after_named (name : string) (owner : Plugin) (c : Command) :
  negb (named_by name owner c) && kept_command owner c = kept_command owner c.
Proof.
  unfold named_by, kept_command. destruct (plugin_eqb (plugin c) owner); simpl.
  - apply andb_false_r.
  - now rewrite andb_false_r.
Qed.

(** X3. Removal is idempotent, and bulk removal absorbs removal by name:
    unregistering a name twice, or all of a plugin's commands twice, is as
    doing it once; unregistering a name of a plugin before or after all of
    that plugin's commands is as unregistering all of them; and bulk
    removals for two plugins can be done in either order. *)
Theorem unregistration_composes
        (name : string) (owner other : Plugin) (reg : Registry) :
  bind (unregister_command name owner) (fun _ => unregister_command name owner) reg
  = unregister_command name owner reg
  /\ bind (unregister_all_commands_for_plugin owner)
          (fun _ => unregister_all_commands_for_plugin owner) reg
     = unregister_all_commands_for_plugin owner reg
  /\ bind (unregister_command name owner)
          (fun _ => unregister_all_commands_for_plugin owner) reg
     = unregister_all_commands_for_plugin owner reg
  /\ bind (unregister_all_commands_for_plugin owner)
          (fun _ => unregister_command name owner) reg
     = unregister_all_commands_for_plugin owner reg
  /\ bind (unregister_all_commands_for_plugin owner)
          (fun _ => unregister_all_commands_for_plugin other) reg
     = bind (unregister_all_commands_for_plugin other)
            (fun _ => unregister_all_commands_for_plugin owner) reg.
Proof.
  unfold bind.
  rewrite !unregister_command_without, !unregister_all_filter. cbv beta iota.
  rewrite ?unregister_command_without, ?unregister_all_filter.
  destruct reg as [exact modern]. unfold without_command, without_plugin; simpl.
  repeat split; f_equal; f_equal.
  - rewrite filter_twice. apply filter_ext. intros c. apply andb_diag.
  - rewrite filter_twice. apply filter_ext. intros c. apply andb_diag.
  - rewrite filter_twice. apply filter_ext. intros c. apply andb_diag.
  - rewrite filter_twice. apply filter_ext. intros c. apply kept_after_named.
  - rewrite filter_twice. apply filter_ext. intros c.
    rewrite andb_comm. apply kept_after_named.
  - apply filter_swap.
  - apply filter_swap.
Qed.

(** X4. A newly registered exact command is found by the queries right
    after the older ones: [get_info_for_command] lists it under its own
    name only, [get_available_commands_for_user] for the users who hold
    its permission only.  Registering a pattern command, whether or not
    its pattern compiles, changes the answer of neither query. *)
Theorem queries_after_registration
        (has_permission : Permission -> User -> bool)
        (re_compile : string -> result Re.pattern)
        (name description : string) (perm : Permission) (owner : Plugin)
        (h : option Handler) (reg : Registry) :
  (forall n,
      get_info_for_command n (fst (register_command name description perm owner h reg))
      = get_info_for_command n reg
        ++ (if String.eqb name n then [mkCommand name description perm owner h] else []))
  /\ (forall user,
         get_available_commands_for_user has_permission user
                                         (fst (register_command name description perm owner h reg))
         = get_available_commands_for_user has_permission user reg
           ++ (if has_permission perm user
               then [mkCommand name description perm owner h] else []))
  /\ (forall n,
         get_info_for_command n
           (fst (register_modern_command re_compile name description perm owner h reg))
         = get_info_for_command n reg)
  /\ (forall user,
         get_available_commands_for_user has_permission user
           (fst (register_modern_command re_compile name description perm owner h reg))
         = get_available_commands_for_user has_permission user reg).
Proof.
  unfold get_info_for_command, get_available_commands_for_user.
  split; [|split; [|split]].
  - intros n. simpl. now rewrite filter_app.
  - intros user. simpl. now rewrite filter_app.
  - intros n. unfold register_modern_command. now destruct (re_compile name).
  - intros user. unfold register_modern_command. now destruct (re_compile name).
Qed.

(** X5. After [unregister_command] the queries answer as before with the
    entries of that name and plugin left out: other names are listed
    unchanged, and under the name itself no entry of the plugin remains.
    After [unregister_all_commands_for_plugin] both queries answer as
    before with the plugin's entries left out. *)
Theorem queries_after_unregistration
        (has_permission : Permission -> User -> bool)
        (name : string) (owner : Plugin) (reg : Registry) :
  (forall n, n <> name ->
             get_info_for_command n (fst (unregister_command name owner reg))
             = get_info_for_command n reg)
  /\ get_info_for_command name (fst (unregister_command name owner reg))
     = filter (kept_command owner) (get_info_for_command name reg)
  /\ (forall user,
         get_available_commands_for_user has_permission user
                                         (fst (unregister_command name owner reg))
         = filter (fun c => negb (named_by name owner c))
                  (get_available_commands_for_user has_permission user reg))
  /\ (forall n,
         get_info_for_command n (fst (unregister_all_commands_for_plugin owner reg))
         = filter (kept_command owner) (get_info_for_command n reg))
  /\ (forall user,
         get_available_commands_for_user has_permission user
                                         (fst (unregister_all_commands_for_plugin owner reg))
         = filter (kept_command owner)
                  (get_available_commands_for_user has_permission user reg))
  /\ (forall n user c,
         In c (get_info_for_command n (fst (unregister_all_commands_for_plugin owner reg)))
         \/ In c (get_available_commands_for_user
                    has_permission user (fst (unregister_all_commands_for_plugin owner reg))) ->
         plugin c <> owner).
Proof.
  rewrite unregister_command_without, unregister_all_filter.
  unfold get_info_for_command, get_available_commands_for_user, without_command,
    without_plugin; simpl.
  split; [|split; [|split; [|split; [|split]]]].
  - intros n N. rewrite filter_twice. apply filter_ext_in. intros c _.
    unfold named_by. destruct (String.eqb_spec (command c) name) as [E|E]; simpl; [|reflexivity].
    destruct (String.eqb_spec (command c) n) as [E'|E']; [congruence | apply andb_false_r].
  - rewrite !filter_twice. apply filter_ext. intros c.
    unfold named_by, kept_command.
    destruct (String.eqb (command c) name); simpl;
      rewrite ?andb_true_r, ?andb_false_r; reflexivity.
  - intros user. apply filter_swap.
  - intros n. apply filter_swap.
  - intros user. apply filter_swap.
  - intros n user c [H|H]; apply filter_In in H as [H _]; apply filter_In in H as [_ H];
      unfold kept_command in H; apply negb_true_iff in H; now apply plugin_eqb_false.
Qed.

(** X6. What a plugin registers is gone once all its commands are
    unregistered, whatever was registered in between by others: a
    registration by the plugin followed by the bulk removal is the bulk
    removal, and a registration by another plugin can be moved across the
    bulk removal. *)
Theorem bulk_removal_after_registration
        (re_compile : string -> result Re.pattern)
        (name description : string) (perm : Permission) (owner other : Plugin)
        (h : option Handler) (reg : Registry) :
  bind (register_command name description perm owner h)
       (fun _ => unregister_all_commands_for_plugin owner) reg
  = unregister_all_commands_for_plugin owner reg
  /\ (forall compiled,
         re_compile name = Ok compiled ->
         bind (register_modern_command re_compile name description perm owner h)
              (fun _ => unregister_all_commands_for_plugin owner) reg
         = unregister_all_commands_for_plugin owner reg)
  /\ (other <> owner ->
      bind (register_command name description perm other h)
           (fun _ => unregister_all_commands_for_plugin owner) reg
      = bind (unregister_all_commands_for_plugin owner)
             (fun _ => register_command name description perm other h) reg)
  /\ (other <> owner ->
      forall compiled,
        re_compile name = Ok compiled ->
        bind (register_modern_command re_compile name description perm other h)
             (fun _ => unregister_all_commands_for_plugin owner) reg
        = bind (unregister_all_commands_for_plugin owner)
               (fun _ => register_modern_command re_compile name description perm other h) reg).
Proof.
  assert (T : plugin_eqb owner owner = true) by now apply plugin_eqb_true.
  split; [|split; [|split]].
  - unfold bind, register_command, append_command.
    rewrite !unregister_all_filter. unfold without_plugin; simpl.
    rewrite filter_app; simpl. unfold kept_command at 2; simpl.
    now rewrite T, app_nil_r.
  - intros compiled C. unfold bind, register_modern_command, append_modern_command.
    rewrite C, !unregister_all_filter. unfold without_plugin; simpl.
    rewrite filter_app; simpl. unfold kept_modern_command at 2; simpl.
    now rewrite T, app_nil_r.
  - intros N. apply plugin_eqb_false in N.
    unfold bind, register_command, append_command.
    rewrite !unregister_all_filter. unfold without_plugin; simpl.
    rewrite filter_app; simpl. unfold kept_command at 2; simpl.
    now rewrite N.
  - intros N compiled C. apply plugin_eqb_false in N.
    unfold bind, register_modern_command, append_modern_command.
    rewrite C, !unregister_all_filter. unfold without_plugin; simpl.
    rewrite filter_app; simpl. unfold kept_modern_command at 2; simpl.
    now rewrite N.
Qed.

End TableProperties.

(* ================================================================== *)
(** ** More on dispatch: what the trace of a dispatch can hold *)

Module TraceProperties.
Import Py CommandRegistry Spec Notions PyFacts TableFacts DispatchFacts.

Lemma lstrip_split (s chars : string) :
  exists stripped,
    s = String.append stripped (lstrip s chars)
    /\ all_in stripped chars = true
    /\ starts_outside (lstrip s chars) chars = true.
Proof.
  induction s as [|c s [p [E [A O]]]]; simpl.
  - exists EmptyString. repeat split.
  - destruct (char_in c chars) eqn:C.
    + exists (String c p). simpl. rewrite C, A, <- E. repeat split. exact O.
    + exists EmptyString. simpl. rewrite C. repeat split.
Qed.

Lemma lstrip_append (p b chars : string) :
  all_in p chars = true -> starts_outside b chars = true ->
  lstrip (String.append p b) chars = b.
Proof.
  induction p as [|c p IH]; simpl; intros A O.
  - destruct b as [|c t]; [reflexivity|]. simpl in *.
    apply negb_true_iff in O. now rewrite O.
  - apply andb_true_iff in A as [C A]. rewrite C. now apply IH.
Qed.

(** X7. The text the patterns are matched against is the content of the
    message without its longest leading run of characters that occur in
    the configured prefix: the content splits into such a run and the text,
    the text does not start with a character of the prefix, and no other
    split has these two properties.  In particular a content that starts
    with no character of the prefix is matched as it is. *)
Theorem command_body_drops_leading_prefix_characters
        (config : Config) (args : CommandSentEvent) :
  (exists stripped,
      content args = String.append stripped (command_body config args)
      /\ all_in stripped (command_prefix config) = true
      /\ starts_outside (command_body config args) (command_prefix config) = true)
  /\ (forall stripped text,
         content args = String.append stripped text ->
         all_in stripped (command_prefix config) = true ->
         starts_outside text (command_prefix config) = true ->
         command_body config args = text)
  /\ (starts_outside (content args) (command_prefix config) = true ->
      command_body config args = content args).
Proof.
  unfold command_body. split; [apply lstrip_split|]. split.
  - intros stripped text -> A O. now apply lstrip_append.
  - intros O. now apply (lstrip_append EmptyString).
Qed.

Section Dispatch.
Variable config : Config.
Variable has_permission : Permission -> User -> bool.
Variable wait_for : Handler -> CommandSentEvent -> nat -> result unit.
Variable subscript_author : CommandSentEvent -> result User.

Lemma Forall_dbind (P : effect -> Prop) (m : D unit) (f : unit -> D unit) :
  Forall P (fst m) -> Forall P (fst (f tt)) -> Forall P (fst (dbind m f)).
Proof.
  destruct m as [t [[]|e]]; simpl; intros H1 H2; [|exact H1].
  destruct (f tt) as [t' r]. apply Forall_app. now split.
Qed.

Lemma Forall_loop {A : Type} (P : effect -> Prop) (body : A -> D unit) (l : list A) :
  (forall x, In x l -> Forall P (fst (body x))) ->
  Forall P (fst (dfor_each l body)).
Proof.
  induction l as [|x l IH]; cbn [dfor_each]; intros H; [constructor|].
  apply Forall_dbind.
  - apply H. now left.
  - apply IH. intros y Hy. apply H. now right.
Qed.

Lemma Forall_awaited (P : effect -> Prop) (h : Handler) (ev : CommandSentEvent)
      (e : entry) (name : string) :
  P (Invoke h ev (event_timeout config)) -> P (Warning e name) ->
  Forall P (awaited config wait_for h ev e name).
Proof.
  intros H1 H2. unfold awaited.
  destruct (wait_for h ev (event_timeout config)) as [[]|[]]; repeat constructor; assumption.
Qed.

Lemma exact_round_justified (command_name : string) (args : CommandSentEvent) (reg : Registry)
      (c : Command) :
  In c (_commands reg) ->
  Forall (justified config has_permission subscript_author command_name args reg)
         (fst (handle_exact config has_permission wait_for command_name args c)).
Proof.
  intros I. rewrite handle_exact_eq.
  destruct (exact_applies has_permission command_name args c) eqn:A; [|constructor].
  unfold exact_applies in A. apply andb_true_iff in A as [A P].
  apply andb_true_iff in A as [N H].
  unfold exact_effects; simpl. destruct (handler c) as [h|] eqn:Hh; [|constructor].
  apply Forall_awaited; simpl.
  - split; [reflexivity|]. left. split; [reflexivity|]. exists c.
    unfold get_info_for_command, get_available_commands_for_user.
    rewrite !filter_In. auto.
  - auto.
Qed.

Lemma modern_round_justified (command_name : string) (args : CommandSentEvent) (reg : Registry)
      (c : ModernCommand) :
  In c (_modern_commands reg) ->
  Forall (justified config has_permission subscript_author command_name args reg)
         (fst (handle_modern config has_permission wait_for subscript_author args c)).
Proof.
  intros I. destruct (subscript_author args) as [user|e] eqn:S.
  - rewrite (handle_modern_eq _ _ _ _ args user c S).
    destruct (modern_applies config has_permission args user c) eqn:A; [|constructor].
    unfold modern_applies, modern_selected in A. apply andb_true_iff in A as [A P].
    apply andb_true_iff in A as [M H].
    unfold modern_effects; simpl. destruct (modern_handler c) as [h|] eqn:Hh; [|constructor].
    apply Forall_awaited; simpl.
    + split; [reflexivity|]. right. exists c, user. auto 10.
    + auto.
  - destruct (modern_selected config args c) eqn:E.
    + rewrite (handle_modern_subscript_raises _ _ _ _ args c e E S). constructor.
    + rewrite (handle_modern_unselected _ _ _ _ args c E). constructor.
Qed.

Lemma handle_command_justified (command_name : string) (args : CommandSentEvent)
      (reg : Registry) :
  Forall (justified config has_permission subscript_author command_name args reg)
         (fst (handle_command config has_permission wait_for subscript_author
                              command_name args reg)).
Proof.
  unfold handle_command. apply Forall_dbind; apply Forall_loop; intros c I.
  - now apply exact_round_justified.
  - now apply modern_round_justified.
Qed.

(** The trace of a loop that raised ends with the effects of the round
    that raised. *)
Lemma loop_raises_last {A : Type} (body : A -> D unit) (l : list A) (e : exn) :
  snd (dfor_each l body) = Raise e ->
  exists pre x, In x l
                /\ fst (dfor_each l body) = pre ++ fst (body x)
                /\ snd (body x) = Raise e.
Proof.
  induction l as [|x l IH]; cbn [dfor_each]; [discriminate|].
  destruct (body x) as [t [[]|e']] eqn:B.
  - rewrite dbind_ok. simpl. intros H. destruct (IH H) as [pre [y [I [F R]]]].
    exists (t ++ pre), y. split; [now right|]. split; [|exact R].
    now rewrite F, app_assoc.
  - simpl. intros H. exists [], x. rewrite B. simpl. split; [now left|]. now split.
Qed.

Lemma exact_round_raises_trace (command_name : string) (args : CommandSentEvent) (c : Command)
      (e : exn) :
  snd (handle_exact config has_permission wait_for command_name args c) = Raise e ->
  exists h,
    fst (handle_exact config has_permission wait_for command_name args c)
    = [Invoke h args (event_timeout config)]
    /\ wait_for h args (event_timeout config) = Raise e /\ e <> TimeoutError.
Proof.
  rewrite handle_exact_eq. destruct (exact_applies _ _ _ c); [|discriminate].
  unfold exact_outcome, exact_effects, awaited; simpl.
  destruct (handler c) as [h|]; [|discriminate].
  intros H. exists h.
  destruct (wait_for h args (event_timeout config)) as [[]|[]]; simpl in H;
    try discriminate; injection H as <-; repeat split; discriminate.
Qed.

Lemma modern_round_raises_trace (args : CommandSentEvent) (c : ModernCommand) (e : exn) :
  snd (handle_modern config has_permission wait_for subscript_author args c) = Raise e ->
  (subscript_author args = Raise e
   /\ modern_selected config args c = true
   /\ fst (handle_modern config has_permission wait_for subscript_author args c) = [])
  \/ exists h ev,
      fst (handle_modern config has_permission wait_for subscript_author args c)
      = [Invoke h ev (event_timeout config)]
      /\ wait_for h ev (event_timeout config) = Raise e /\ e <> TimeoutError.
Proof.
  destruct (subscript_author args) as [user|e'] eqn:S.
  - rewrite (handle_modern_eq _ _ _ _ args user c S).
    destruct (modern_applies _ _ _ _ c); [|discriminate].
    unfold modern_outcome, modern_effects, awaited; simpl.
    destruct (modern_handler c) as [h|]; [|discriminate].
    intros H. right. exists h, (modern_event config args c).
    destruct (wait_for h _ (event_timeout config)) as [[]|[]]; simpl in H;
      try discriminate; injection H as <-; repeat split; discriminate.
  - destruct (modern_selected config args c) eqn:E.
    + rewrite (handle_modern_subscript_raises _ _ _ _ args c e' E S). simpl.
      intros H; injection H as <-. left. repeat split.
    + rewrite (handle_modern_unselected _ _ _ _ args c E). discriminate.
Qed.

End Dispatch.

(** X8. Whatever the registry and the handlers, and whether or not the
    dispatch ends well, every effect of a dispatch is accounted for by a
    registered entry: a handler is only ever awaited under the configured
    timeout, for an exact entry that both queries list (under the command
    token, and for the author) or for a pattern entry whose pattern
    matches the stripped text and whose permission the subscripted user
    holds; a warning only ever names a registered entry and its plugin.
    The event a handler receives carries the message, the author and the
    channel of the dispatched event. *)
Theorem every_effect_is_accounted_for
        (config : Config) (has_permission : Permission -> User -> bool)
        (wait_for : Handler -> CommandSentEvent -> nat -> result unit)
        (subscript_author : CommandSentEvent -> result User)
        (command_name : string) (args : CommandSentEvent) (reg : Registry) :
  Forall (justified config has_permission subscript_author command_name args reg)
         (fst (handle_command config has_permission wait_for subscript_author
                              command_name args reg))
  /\ (forall h ev t,
         In (Invoke h ev t)
            (fst (handle_command config has_permission wait_for subscript_author
                                 command_name args reg)) ->
         t = event_timeout config
         /\ message ev = message args /\ author ev = author args
         /\ channel ev = channel args).
Proof.
  pose proof (handle_command_justified config has_permission wait_for subscript_author
                                       command_name args reg) as J.
  split; [exact J|].
  intros h ev t I. rewrite Forall_forall in J. specialize (J _ I). simpl in J.
  destruct J as [T [[-> _]|[c [user [_ [_ [_ [_ [_ ->]]]]]]]]]; auto.
Qed.

(** X9. After all commands of a plugin were unregistered, no dispatch has
    an effect that involves an entry of that plugin: every handler that is
    invoked belongs to an entry of another plugin, and every warning names
    an entry of another plugin. *)
Theorem no_effect_of_an_unregistered_plugin
        (config : Config) (has_permission : Permission -> User -> bool)
        (wait_for : Handler -> CommandSentEvent -> nat -> result unit)
        (subscript_author : CommandSentEvent -> result User)
        (command_name : string) (args : CommandSentEvent) (owner : Plugin) (reg : Registry) :
  Forall (foreign_to owner reg)
         (fst (handle_command config has_permission wait_for subscript_author
                              command_name args
                              (fst (unregister_all_commands_for_plugin owner reg)))).
Proof.
  rewrite unregister_all_filter. simpl.
  eapply Forall_impl;
    [|apply (handle_command_justified config has_permission wait_for subscript_author)].
  assert (K : forall c, In c (_commands (without_plugin owner reg)) ->
                        In c (_commands reg) /\ plugin c <> owner).
  { intros c H. apply filter_In in H as [H1 H2]. split; [exact H1|].
    apply plugin_eqb_false. now apply negb_true_iff. }
  assert (M : forall c, In c (_modern_commands (without_plugin owner reg)) ->
                        In c (_modern_commands reg) /\ modern_plugin c <> owner).
  { intros c H. apply filter_In in H as [H1 H2]. split; [exact H1|].
    apply plugin_eqb_false. now apply negb_true_iff. }
  intros [h ev t|[c|c] name]; simpl.
  - intros [_ [[_ [c [I [_ H]]]]|[c [user [I [_ [_ [_ [H _]]]]]]]]].
    + left. exists c. apply filter_In in I as [I _]. destruct (K c I). auto.
    + right. exists c. destruct (M c I). auto.
  - intros [I _]. now destruct (K c I).
  - intros [I _]. now destruct (M c I).
Qed.

(** X10. An exception that leaves a dispatch is either the one the author
    subscript of the event raised, a pattern entry being selected, or one
    that an awaited handler raised, and then it is not a timeout and the
    invocation of that handler is the last effect of the dispatch: nothing
    is attempted after it, and the dispatcher raises nothing of its own. *)
Theorem exception_comes_from_last_invocation
        (config : Config) (has_permission : Permission -> User -> bool)
        (wait_for : Handler -> CommandSentEvent -> nat -> result unit)
        (subscript_author : CommandSentEvent -> result User)
        (command_name : string) (args : CommandSentEvent) (reg : Registry) (e : exn) :
  snd (handle_command config has_permission wait_for subscript_author command_name args reg)
  = Raise e ->
  (subscript_author args = Raise e
   /\ exists c, In c (_modern_commands reg) /\ modern_selected config args c = true)
  \/ exists pre h ev,
      fst (handle_command config has_permission wait_for subscript_author
                          command_name args reg)
      = pre ++ [Invoke h ev (event_timeout config)]
      /\ wait_for h ev (event_timeout config) = Raise e
      /\ e <> TimeoutError.
Proof.
  unfold handle_command.
  destruct (dfor_each (_commands reg)
                      (handle_exact config has_permission wait_for command_name args))
    as [t1 [[]|e1]] eqn:L1.
  - rewrite dbind_ok. simpl. intros H.
    apply loop_raises_last in H as [pre [c [I [F R]]]].
    apply modern_round_raises_trace in R as [[S [Sel _]]|[h [ev [T [W N]]]]].
    + left. split; [exact S|]. now exists c.
    + right. exists (t1 ++ pre), h, ev. rewrite F, T, app_assoc. auto.
  - simpl. intros H. injection H as ->.
    assert (R : snd (dfor_each (_commands reg)
                               (handle_exact config has_permission wait_for command_name args))
                = Raise e) by now rewrite L1.
    apply loop_raises_last in R as [pre [c [I [F R]]]].
    apply exact_round_raises_trace in R as [h [T [W N]]].
    right. exists pre, h, args. rewrite L1 in F. simpl in F. rewrite F, T. auto.
Qed.

Lemma failing_subscript_loop
      (config : Config) (has_permission : Permission -> User -> bool)
      (wait_for : Handler -> CommandSentEvent -> nat -> result unit)
      (subscript_author : CommandSentEvent -> result User)
      (args : CommandSentEvent) (e : exn) (l : list ModernCommand) :
  subscript_author args = Raise e ->
  Exists (fun c => modern_selected config args c = true) l ->
  dfor_each l (handle_modern config has_permission wait_for subscript_author args)
  = ([], Raise e).
Proof.
  intros S. induction 1 as [c l H|c l _ IH]; cbn [dfor_each].
  - now rewrite (handle_modern_subscript_raises _ _ _ _ args c e H S).
  - destruct (modern_selected config args c) eqn:E.
    + now rewrite (handle_modern_subscript_raises _ _ _ _ args c e E S).
    + now rewrite (handle_modern_unselected _ _ _ _ args c E), dbind_dret.
Qed.

(** X11. When the handler of an exact entry that is run raises something
    other than a timeout, the dispatch ends there with that exception: its
    effects are those of the entries before it and the invocation that
    raised; no later exact entry and no pattern entry is attempted. *)
Theorem raising_exact_handler_ends_dispatch
        (config : Config) (has_permission : Permission -> User -> bool)
        (wait_for : Handler -> CommandSentEvent -> nat -> result unit)
        (subscript_author : CommandSentEvent -> result User)
        (command_name : string) (args : CommandSentEvent) (reg : Registry)
        (l1 : list Command) (c : Command) (l2 : list Command) (h : Handler) (e : exn) :
  _commands reg = l1 ++ c :: l2 ->
  exact_handlers_benign config has_permission wait_for command_name args l1 ->
  command c = command_name ->
  handler c = Some h ->
  has_permission (required_permission c) (author args) = true ->
  wait_for h args (event_timeout config) = Raise e ->
  e <> TimeoutError ->
  handle_command config has_permission wait_for subscript_author command_name args reg
  = (flat_map (exact_effects config wait_for args)
              (filter (exact_applies has_permission command_name args) l1)
     ++ [Invoke h args (event_timeout config)],
     Raise e).
Proof.
  intros L B N H P W T. unfold handle_command.
  rewrite L, dfor_each_app, (exact_loop_trace config has_permission wait_for _ _ _ B), dbind_ok.
  cbn [dfor_each]. rewrite handle_exact_eq.
  unfold exact_applies, exact_effects, exact_outcome, awaited.
  rewrite N, String.eqb_refl, H, P, W. cbn - [dbind dfor_each].
  destruct e; try contradiction; reflexivity.
Qed.

(** X12. When the author subscript of the event raises and the text
    selects at least one pattern entry that has a handler, the dispatch
    ends with that exception after the first loop, and no handler of a
    pattern entry is invoked. *)
Theorem failing_subscript_ends_dispatch
        (config : Config) (has_permission : Permission -> User -> bool)
        (wait_for : Handler -> CommandSentEvent -> nat -> result unit)
        (subscript_author : CommandSentEvent -> result User)
        (command_name : string) (args : CommandSentEvent) (reg : Registry) (e : exn) :
  exact_handlers_benign config has_permission wait_for command_name args (_commands reg) ->
  Exists (fun c => modern_selected config args c = true) (_modern_commands reg) ->
  subscript_author args = Raise e ->
  handle_command config has_permission wait_for subscript_author command_name args reg
  = (flat_map (exact_effects config wait_for args)
              (filter (exact_applies has_permission command_name args) (_commands reg)),
     Raise e).
Proof.
  intros B X S. unfold handle_command.
  rewrite (exact_loop_trace config has_permission wait_for _ _ _ B), dbind_ok.
  rewrite (failing_subscript_loop config has_permission wait_for subscript_author args e _ S X).
  simpl. now rewrite app_nil_r.
Qed.

(** X13. When the author subscript works and no handler that is run raises
    anything but a timeout, a dispatch consists of the rounds of the exact
    entries that apply, in the order of their registration, followed by
    the rounds of the pattern entries that apply, in the order of theirs,
    each round being the invocation and, after a timeout, its warning; and
    it returns normally. *)
Theorem dispatch_runs_exact_then_pattern_entries
        (config : Config) (has_permission : Permission -> User -> bool)
        (wait_for : Handler -> CommandSentEvent -> nat -> result unit)
        (subscript_author : CommandSentEvent -> result User)
        (command_name : string) (args : CommandSentEvent) (user : User) (reg : Registry) :
  subscript_author args = Ok user ->
  exact_handlers_benign config has_permission wait_for command_name args (_commands reg) ->
  modern_handlers_benign config has_permission wait_for args user (_modern_commands reg) ->
  handle_command config has_permission wait_for subscript_author command_name args reg
  = (flat_map (fun c => match handler c with
                        | Some h =>
                            Invoke h args (event_timeout config)
                              :: match wait_for h args (event_timeout config) with
                                 | Raise TimeoutError =>
                                     [Warning (Exact c) (manifest_name (plugin c))]
                                 | _ => []
                                 end
                        | None => []
                        end)
              (filter (fun c => String.eqb (command c) command_name
                                && is_not_None (handler c)
                                && has_permission (required_permission c) (author args))
                      (_commands reg))
     ++ flat_map (modern_effects config wait_for args)
                 (filter (modern_applies config has_permission args user)
                         (_modern_commands reg)),
     Ok tt).
Proof.
  intros S B1 B2.
  exact (handle_command_trace config has_permission wait_for subscript_author
                              command_name args user reg S B1 B2).
Qed.

(** X14. When no handler that the first loop runs raises anything but a
    timeout, every exact entry that [get_info_for_command] lists under the
    command token, that [get_available_commands_for_user] lists for the
    author and that has a handler is invoked with the dispatched event. *)
Theorem listed_command_with_handler_is_invoked
        (config : Config) (has_permission : Permission -> User -> bool)
        (wait_for : Handler -> CommandSentEvent -> nat -> result unit)
        (subscript_author : CommandSentEvent -> result User)
        (command_name : string) (args : CommandSentEvent) (reg : Registry)
        (c : Command) (h : Handler) :
  exact_handlers_benign config has_permission wait_for command_name args (_commands reg) ->
  In c (get_info_for_command command_name reg) ->
  In c (get_available_commands_for_user has_permission (author args) reg) ->
  handler c = Some h ->
  In (Invoke h args (event_timeout config))
     (fst (handle_command config has_permission wait_for subscript_author
                          command_name args reg)).
Proof.
  intros B I1 I2 H.
  destruct (handle_command_exact_prefix config has_permission wait_for subscript_author
              command_name args reg B) as [rest ->].
  apply in_or_app. left. apply in_flat_map. exists c. split.
  - unfold get_info_for_command in I1. unfold get_available_commands_for_user in I2.
    apply filter_In in I1 as [I N]. apply filter_In in I2 as [_ P].
    apply filter_In. split; [exact I|]. unfold exact_applies. now rewrite N, H, P.
  - unfold exact_effects, awaited. rewrite H. now left.
Qed.

End TraceProperties.

(* ================================================================== *)
(** ** These properties on the concrete deployment *)

Module MoreExamples.
Import Py CommandRegistry Spec Notions Scenario TableProperties TraceProperties.

Ltac benign_rounds :=
  repeat (apply Forall_cons;
          [ intros A h E; vm_compute in A; try discriminate A;
            injection E as <-; vm_compute; auto | ]);
  apply Forall_nil.

Lemma exception_comes_from_last_invocation_witness :
  (subscript_author (said alice "hello" "!hello") = Raise (HandlerError 7)
   /\ exists c, In c (_modern_commands crowded)
                /\ modern_selected config (said alice "hello" "!hello") c = true)
  \/ exists pre h ev,
      fst (dispatch "hello" (said alice "hello" "!hello") crowded)
      = pre ++ [Invoke h ev (event_timeout config)]
      /\ wait_for h ev (event_timeout config) = Raise (HandlerError 7)
      /\ HandlerError 7 <> TimeoutError.
Proof.
  exact (exception_comes_from_last_invocation
           config has_permission wait_for subscript_author
           "hello" (said alice "hello" "!hello") crowded (HandlerError 7) eq_refl).
Defined.

Lemma raising_exact_handler_ends_dispatch_witness :
  dispatch "hello" (said alice "hello" "!hello") crowded
  = ([Invoke stuck (said alice "hello" "!hello") 5;
      Warning (Exact (mkCommand "hello" "greets" everyone core (Some stuck))) "core";
      Invoke faulty (said alice "hello" "!hello") 5],
     Raise (HandlerError 7)).
Proof.
  refine (raising_exact_handler_ends_dispatch
            config has_permission wait_for subscript_author
            "hello" (said alice "hello" "!hello") crowded
            [mkCommand "hello" "greets" everyone core (Some stuck)]
            (mkCommand "hello" "greets admins" admins games (Some faulty))
            [mkCommand "hello" "greets again" everyone games (Some quick);
             mkCommand "help" "lists the commands" everyone core None]
            faulty (HandlerError 7) eq_refl _ eq_refl eq_refl eq_refl eq_refl _).
  - benign_rounds.
  - discriminate.
Defined.

Lemma failing_subscript_ends_dispatch_witness :
  handle_command config has_permission wait_for unsubscriptable
                 "hello" (said mallory "hello" "!hello") crowded
  = ([Invoke stuck (said mallory "hello" "!hello") 5;
      Warning (Exact (mkCommand "hello" "greets" everyone core (Some stuck))) "core";
      Invoke quick (said mallory "hello" "!hello") 5],
     Raise TypeError).
Proof.
  refine (failing_subscript_ends_dispatch
            config has_permission wait_for unsubscriptable
            "hello" (said mallory "hello" "!hello") crowded TypeError _ _ eq_refl).
  - benign_rounds.
  - apply Exists_cons_hd. reflexivity.
Defined.

Lemma dispatch_runs_exact_then_pattern_entries_witness :
  dispatch "hello" (said mallory "hello" "!hello") crowded
  = ([Invoke stuck (said mallory "hello" "!hello") 5;
      Warning (Exact (mkCommand "hello" "greets" everyone core (Some stuck))) "core";
      Invoke quick (said mallory "hello" "!hello") 5;
      Invoke stuck (mkEvent (mkMessage 100 "!hello") mallory 7 "hel+o" (VStr "hello")) 5;
      Warning (Pattern (mkModernCommand (compiled "hel+o") "hel+o" "greets loosely"
                                        everyone games (Some stuck)))
              "games"],
     Ok tt).
Proof.
  refine (dispatch_runs_exact_then_pattern_entries
            config has_permission wait_for subscript_author
            "hello" (said mallory "hello" "!hello") mallory crowded eq_refl _ _).
  - benign_rounds.
  - benign_rounds.
Defined.

Lemma listed_command_with_handler_is_invoked_witness :
  In (Invoke quick (said mallory "hello" "!hello") 5)
     (fst (dispatch "hello" (said mallory "hello" "!hello") crowded)).
Proof.
  refine (listed_command_with_handler_is_invoked
            config has_permission wait_for subscript_author
            "hello" (said mallory "hello" "!hello") crowded
            (mkCommand "hello" "greets again" everyone games (Some quick)) quick
            _ _ _ eq_refl).
  - benign_rounds.
  - vm_compute. auto.
  - vm_compute. auto.
Defined.

(** Registering [hello] once more for [core] and unregistering it removes
    the older [hello] of [core] as well. *)
Example register_then_unregister_hello :
  bind (register_command "hello" "greets" everyone core (Some quick))
       (fun _ => unregister_command "hello" core) crowded
  = (mkRegistry
       [mkCommand "hello" "greets admins" admins games (Some faulty);
        mkCommand "hello" "greets again" everyone games (Some quick);
        mkCommand "help" "lists the commands" everyone core None]
       (_modern_commands crowded),
     Ok tt).
Proof. reflexivity. Qed.

End MoreExamples.
